(** * tokens.py: the Token registry, embedded and verified

    A shallow embedding of [src/tokens.py].  Python classes are values of
    [pyclass]; class attributes ([_register], [_index], [_numindex]) live in
    a store indexed by class and are resolved along the method resolution
    order, as Python's attribute lookup does.  The three registries are
    [OrderedDict]s, modelled as association lists kept in insertion order.
    Methods that mutate the registries are state-passing functions returning
    either a value or the exception that the Python code raises. *)

From stdpp Require Import base numbers strings list.

Set Warnings "-register-all".

Local Open Scope string_scope.
Local Open Scope Z_scope.

(** ** Python values carried as payloads *)

(** The float, dict and list payloads of a token are arbitrary Python
    objects.  [VCallable r] is an object with a [__call__] taking no
    argument, [r] being what calling it returns; a float is written
    [mantissa * 2 ^ exponent]. *)
Inductive pyval : Type :=
  | VNone
  | VInt (n : Z)
  | VFloat (mantissa exponent : Z)
  | VStr (s : string)
  | VTuple (items : list pyval)
  | VDict (items : list (string * pyval))
  | VCallable (returns : pyval).

(** Python's builtin [callable]. *)
Definition callable (v : pyval) : bool :=
  match v with
  | VCallable _ => true
  | _ => false
  end.

(** ** Classes and the inheritance graph *)

(** A token class is [Token] itself or a class declared by
    [class name(base): pass]. *)
Inductive pyclass : Type :=
  | Token_class
  | Subclass (name : string) (base : pyclass).

#[global] Instance pyclass_eq_dec : EqDecision pyclass.
Proof. solve_decision. Defined.

(** [cls.__name__] *)
Definition __name__ (c : pyclass) : string :=
  match c with
  | Token_class => "Token"
  | Subclass n _ => n
  end.

(** [cls.__mro__]: the class, then its bases up to [Token]. *)
Fixpoint mro (c : pyclass) : list pyclass :=
  match c with
  | Token_class => [Token_class]
  | Subclass _ b => c :: mro b
  end.

(** [issubclass(c, cls)] *)
Definition issubclass (c cls : pyclass) : bool :=
  bool_decide (cls ∈ mro c).

(** ** OrderedDict *)

Module OrderedDict.
Section OrderedDict.
Context {K V : Type} `{EqDecision K}.

Definition t : Type := list (K * V).

Definition empty : t := [].

(** [d[k]], [None] standing for [KeyError] *)
Fixpoint get (d : t) (k : K) : option V :=
  match d with
  | [] => None
  | (k', v) :: d' => if decide (k' = k) then Some v else get d' k
  end.

(** [k in d] *)
Definition mem (d : t) (k : K) : bool :=
  match get d k with Some _ => true | None => false end.

(** [d[k] = v]: an existing key keeps its position, a new key goes last. *)
Fixpoint set (d : t) (k : K) (v : V) : t :=
  match d with
  | [] => [(k, v)]
  | (k', v') :: d' =>
      if decide (k' = k) then (k, v) :: d' else (k', v') :: set d' k v
  end.

(** iteration over [d], [d.values()] and [d.items()] *)
Definition keys (d : t) : list K := d.*1.
Definition values (d : t) : list V := d.*2.
Definition items (d : t) : list (K * V) := d.
End OrderedDict.
Arguments t : clear implicits.
End OrderedDict.

Abbreviation OrderedDict := OrderedDict.t.

(** ** Token values and tokens *)

(** [Token.TokenValue].  The class defines neither [__eq__] nor [__hash__],
    so its instances are compared and hashed by identity; [tv_id] is that
    identity, the [id()] of the instance. *)
Record TokenValue : Type := mkTokenValue {
  tv_id : Z;
  strval : option string;
  intval : option Z;
  floatval : pyval;
  dictval : pyval;
  listval : pyval
}.

(** A token: its class and its value bundle.  No method consults the
    identity of the token itself, which is therefore not recorded. *)
Record Token : Type := mkToken {
  __class__ : pyclass;
  _val : TokenValue
}.

(** ** Exceptions and results *)

Inductive pyarg : Type :=
  | AStr (s : option string)
  | AInt (n : option Z)
  | ATok (t : Token)
  | AVal (v : TokenValue).

Inductive exn : Type :=
  | RuntimeError (msg : string) (args : list pyarg)
  | KeyError (msg : string) (args : list pyarg)
  | AttributeError (attr : string)
  | TypeError (msg : string).

Inductive result (A : Type) : Type :=
  | Return (a : A)
  | Raise (e : exn).
Arguments Return {A} a.
Arguments Raise {A} e.

(** ** Properties of a token *)

(** property [type] *)
Definition Token_type (s : Token) : string := __name__ (__class__ s).
(** property [int] *)
Definition Token_int (s : Token) : option Z := intval (_val s).
(** property [str] *)
Definition Token_str (s : Token) : option string := strval (_val s).
(** property [float] *)
Definition Token_float (s : Token) : pyval := floatval (_val s).
(** property [dict] *)
Definition Token_dict (s : Token) : pyval := dictval (_val s).
(** property [list] *)
Definition Token_list (s : Token) : result pyval := Return (listval (_val s)).
(** property [val] *)
Definition Token_val (s : Token) : TokenValue := _val s.

(** [type(v).__name__] *)
Definition type_name (v : pyval) : string :=
  match v with
  | VNone => "NoneType"
  | VInt _ => "int"
  | VFloat _ _ => "float"
  | VStr _ => "str"
  | VTuple _ => "tuple"
  | VDict _ => "dict"
  | VCallable _ => "function"
  end.

(** Calling a Python object with no argument. *)
Definition py_call (f : pyval) : result pyval :=
  match f with
  | VCallable r => Return r
  | _ => Raise (TypeError ("'" ++ type_name f ++ "' object is not callable"))
  end.

(** property [tuple]: [return s.list()] reads the property [list] and calls
    what it returned. *)
Definition Token_tuple (s : Token) : result pyval :=
  match Token_list s with
  | Return l => py_call l
  | Raise e => Raise e
  end.

(** ** Equality and hashing *)

(** [==] on classes is identity. *)
Definition class_eq (a b : pyclass) : bool := bool_decide (a = b).

(** [==] on two values that are each [None] or a string. *)
Definition str_eq (a b : option string) : bool :=
  match a, b with
  | Some x, Some y => bool_decide (x = y)
  | None, None => true
  | _, _ => false
  end.

(** [==] on two values that are each [None] or an int. *)
Definition int_eq (a b : option Z) : bool :=
  match a, b with
  | Some x, Some y => x =? y
  | None, None => true
  | _, _ => false
  end.

(** [a and b] on booleans: [b] is evaluated only when [a] is true. *)
Definition py_and (a : bool) (b : bool) : bool := if a then b else a.

(** [Token.__eq__] *)
Definition Token_eq (s other : Token) : bool :=
  py_and (py_and (class_eq (__class__ s) (__class__ other))
                 (str_eq (Token_str s) (Token_str other)))
         (int_eq (Token_int s) (Token_int other)).

(** [Token.__ne__] *)
Definition Token_ne (s other : Token) : bool := negb (Token_eq s other).

(** [object.__hash__] of CPython on a 64-bit build: the address of the
    object rotated right by four bits, read as a signed word, with [-1]
    (the error value of the C API) replaced by [-2]. *)
Definition object_hash (id : Z) : Z :=
  let y := id mod 2 ^ 64 in
  let r := Z.lor (Z.shiftr y 4) (Z.shiftl y 60 mod 2 ^ 64) in
  let x := if r <? 2 ^ 63 then r else r - 2 ^ 64 in
  if x =? -1 then -2 else x.

(** [hash(v)] for a [TokenValue] instance [v]. *)
Definition TokenValue_hash (v : TokenValue) : Z := object_hash (tv_id v).

(** [Token.__hash__] *)
Definition Token_hash (s : Token) : Z := TokenValue_hash (_val s).

(** ** The class attribute store *)

(** [_register] maps a class to the [OrderedDict] of its tokens by name. *)
Definition Register : Type := OrderedDict pyclass (OrderedDict string Token).

(** The attributes that [Token] and [makeroot] set on a class; [None] when
    the class itself does not define the attribute. *)
Record ClassAttrs : Type := mkClassAttrs {
  _register : option Register;
  _index : option (OrderedDict string Token);
  _numindex : option (OrderedDict (option Z) Token)
}.

(** The interpreter state: the attributes of every class, and the address
    at which the next object is allocated. *)
Record State : Type := mkState {
  attrs : pyclass -> ClassAttrs;
  next_id : Z
}.

(** Objects are allocated at addresses that are multiples of 16, as by
    CPython's allocator. *)
Definition ALIGNMENT : Z := 16.

(** The state after the module is loaded: [Token._register = OrderedDict()]
    and nothing else. *)
Definition initial_state : State :=
  {| attrs := fun c =>
       match c with
       | Token_class => mkClassAttrs (Some OrderedDict.empty) None None
       | _ => mkClassAttrs None None None
       end;
     next_id := ALIGNMENT |}.

(** Attribute lookup on a class or on one of its instances: the first class
    of the MRO that defines the attribute, with the value found there. *)
Fixpoint lookup_mro {A} (attr : ClassAttrs -> option A)
    (env : pyclass -> ClassAttrs) (l : list pyclass) : option (pyclass * A) :=
  match l with
  | [] => None
  | c :: l' =>
      match attr (env c) with
      | Some a => Some (c, a)
      | None => lookup_mro attr env l'
      end
  end.

Definition getattr {A} (attr : ClassAttrs -> option A) (st : State)
    (cls : pyclass) : option (pyclass * A) :=
  lookup_mro attr (attrs st) (mro cls).

(** Assignment to a class attribute, and mutation of the object it holds. *)
Definition update_attrs (st : State) (c : pyclass)
    (f : ClassAttrs -> ClassAttrs) : State :=
  {| attrs := fun c' => if decide (c' = c) then f (attrs st c) else attrs st c';
     next_id := next_id st |}.

Definition set_register (st : State) (c : pyclass) (r : Register) : State :=
  update_attrs st c (fun a => mkClassAttrs (Some r) (_index a) (_numindex a)).

Definition set_index (st : State) (c : pyclass)
    (i : OrderedDict string Token) : State :=
  update_attrs st c (fun a => mkClassAttrs (_register a) (Some i) (_numindex a)).

Definition set_numindex (st : State) (c : pyclass)
    (i : OrderedDict (option Z) Token) : State :=
  update_attrs st c (fun a => mkClassAttrs (_register a) (_index a) (Some i)).

(** ** A state and exception monad *)

Definition M (A : Type) : Type := State -> result A * State.

Definition ret {A} (a : A) : M A := fun st => (Return a, st).
Definition raise {A} (e : exn) : M A := fun st => (Raise e, st).
Definition bind {A B} (m : M A) (k : A -> M B) : M B :=
  fun st =>
    match m st with
    | (Return a, st') => k a st'
    | (Raise e, st') => (Raise e, st')
    end.
Definition modify (f : State -> State) : M unit := fun st => (Return tt, f st).

#[global] Instance M_ret : MRet M := @ret.
#[global] Instance M_bind : MBind M := fun A B k m => bind m k.

(** Reading an attribute through the MRO; [AttributeError] when no class of
    the MRO defines it. *)
Definition read_attr {A} (attr : ClassAttrs -> option A) (name : string)
    (cls : pyclass) : M (pyclass * A) :=
  fun st =>
    match getattr attr st cls with
    | Some oa => (Return oa, st)
    | None => (Raise (AttributeError name), st)
    end.

(** ** Token.__init__ *)

(** [s.TokenValue(strval, intval, floatval, dictval, listval)]: a new
    object. *)
Definition new_TokenValue (strval : option string) (intval : option Z)
    (floatval dictval listval : pyval) : M TokenValue :=
  fun st =>
    (Return (mkTokenValue (next_id st) strval intval floatval dictval listval),
     {| attrs := attrs st; next_id := next_id st + ALIGNMENT |}).

Definition MSG_NO_STRING := "token must have a string value".
Definition MSG_MICRO_SEGMENT :=
  "Token must be globally unique in this micro segment".
Definition MSG_SEGMENT := "Token must be globally unique in this segment".

(** Lines 137-144: the register of the class of [s], created on first use,
    then the check and the insertion under the name of the token. *)
Definition register_local (s : Token) (name : string) : M unit :=
  '(owner, outer) ← read_attr _register "_register" (__class__ s);
  '(register, outer) ←
    match OrderedDict.get outer (__class__ s) with
    | Some register => ret (register, outer)
    | None =>
        let outer' := OrderedDict.set outer (__class__ s) OrderedDict.empty in
        modify (fun st => set_register st owner outer');;
        ret (OrderedDict.empty, outer')
    end;
  match OrderedDict.get register name with
  | Some existing =>
      raise (RuntimeError MSG_MICRO_SEGMENT
               [AStr (Token_str s); ATok s; ATok existing])
  | None =>
      modify (fun st =>
        set_register st owner
          (OrderedDict.set outer (__class__ s)
             (OrderedDict.set register name s)))
  end.

(** Lines 147-153: the string index, when a class of the MRO has one.  The
    [AttributeError] of a missing [_index] is caught, the [RuntimeError] is
    not. *)
Definition register_index (s : Token) (name : string) : M unit :=
  fun st =>
    match getattr _index st (__class__ s) with
    | None => (Return tt, st)
    | Some (owner, index) =>
        match OrderedDict.get index name with
        | Some existing =>
            (Raise (RuntimeError MSG_SEGMENT
                      [AStr (Token_str s); ATok s; ATok existing]), st)
        | None =>
            (Return tt, set_index st owner (OrderedDict.set index name s))
        end
    end.

(** Lines 155-161: the int index, when a class of the MRO has one; the key
    is [s.int], whatever it is. *)
Definition register_numindex (s : Token) : M unit :=
  fun st =>
    match getattr _numindex st (__class__ s) with
    | None => (Return tt, st)
    | Some (owner, index) =>
        match OrderedDict.get index (Token_int s) with
        | Some existing =>
            (Raise (RuntimeError MSG_SEGMENT
                      [AInt (Token_int s); ATok s; ATok existing]), st)
        | None =>
            (Return tt,
             set_numindex st owner (OrderedDict.set index (Token_int s) s))
        end
    end.

(** Lines 126-129: the value bundle is [val] when given, a new
    [TokenValue] otherwise. *)
Definition resolve_val (strval : option string) (intval : option Z)
    (floatval dictval listval : pyval) (val : option TokenValue)
    : M TokenValue :=
  match val with
  | None => new_TokenValue strval intval floatval dictval listval
  | Some v => ret v
  end.

(** [cls(strval, intval, floatval, dictval, listval, val)] *)
Definition Token_init (cls : pyclass) (strval : option string)
    (intval : option Z) (floatval dictval listval : pyval)
    (val : option TokenValue) : M Token :=
  v ← resolve_val strval intval floatval dictval listval val;
  let s := mkToken cls v in
  match Token_str s with
  | None => raise (RuntimeError MSG_NO_STRING [AVal v])
  | Some name =>
      register_local s name;;
      register_index s name;;
      register_numindex s;;
      ret s
  end.

(** ** Token.makeroot *)

Definition Token_makeroot (cls : pyclass) (globalIndex globalNumIndex : bool)
    : M unit :=
  modify (fun st =>
    update_attrs st cls (fun a =>
      mkClassAttrs
        (Some OrderedDict.empty)
        (if globalIndex then Some OrderedDict.empty else _index a)
        (if globalNumIndex then Some OrderedDict.empty else _numindex a))).

(** ** Token.byval and Token.bynum *)

(** The returned [None] of Python is [Return None]. *)
Definition Token_byval (cls : pyclass) (tokenvalue : string)
    (noneIfMissing : bool) : M (option Token) :=
  '(_, index) ← read_attr _index "_index" cls;
  match OrderedDict.get index tokenvalue with
  | Some token => ret (Some token)
  | None =>
      if noneIfMissing then ret None
      else raise (KeyError "token with this string value does not exist"
                    [AStr (Some tokenvalue)])
  end.

Definition Token_bynum (cls : pyclass) (numvalue : option Z)
    (noneIfMissing : bool) : M (option Token) :=
  '(_, index) ← read_attr _numindex "_numindex" cls;
  match OrderedDict.get index numvalue with
  | Some token => ret (Some token)
  | None =>
      if noneIfMissing then ret None
      else raise (KeyError "token with this int value does not exist"
                    [AInt numvalue])
  end.

(** ** Classification and enumeration *)

(** [isinstance(token, cls)] *)
Definition isinstance (token : Token) (cls : pyclass) : bool :=
  issubclass (__class__ token) cls.

Definition Token_includes (cls : pyclass) (token : Token) : bool :=
  isinstance token cls.

Definition Token_isof (s : Token) (tokenclass : pyclass) : bool :=
  isinstance s tokenclass.

Definition Token_issubtoken (cls other : pyclass) : bool := issubclass other cls.

Definition Token_isparenttoken (cls other : pyclass) : bool :=
  issubclass cls other.

(** The classes that both generators iterate over:
    [c for c in cls._register if issubclass(c, cls) or c == cls]. *)
Definition registered_subclasses (cls : pyclass) (register : Register)
    : list pyclass :=
  filter (fun c => issubclass c cls || class_eq c cls)
         (OrderedDict.keys register).

(** An element of the tuples that [subclasses] and [tokens] return. *)
Inductive item : Type :=
  | IName (n : string)
  | IClass (c : pyclass)
  | IStr (s : option string)
  | IToken (t : Token).

Definition Token_subclasses (cls : pyclass) (namesOnly : bool)
    : M (list item) :=
  '(_, register) ← read_attr _register "_register" cls;
  let result := registered_subclasses cls register in
  ret (if namesOnly then (fun c => IName (__name__ c)) <$> result
       else IClass <$> result).

(** The generator of [tokens]: for each class retained, the values of
    [cls._register[c].items()]. *)
Definition registered_tokens (cls : pyclass) (register : Register)
    : list Token :=
  c ← registered_subclasses cls register;
  match OrderedDict.get register c with
  | Some d => (OrderedDict.items d).*2
  | None => []
  end.

Definition Token_tokens (cls : pyclass) (strOnly : bool) : M (list item) :=
  '(_, register) ← read_attr _register "_register" cls;
  let result := registered_tokens cls register in
  ret (if strOnly then (fun t => IStr (Token_str t)) <$> result
       else IToken <$> result).

(** ** Traces of module-level statements *)

(** The statements that change the registries: a construction, whose result
    or exception is dropped, and a call of [makeroot]. *)
Inductive stmt : Type :=
  | Construct (cls : pyclass) (strval : option string) (intval : option Z)
      (floatval dictval listval : pyval) (val : option TokenValue)
  | Makeroot (cls : pyclass) (globalIndex globalNumIndex : bool).

Definition exec (c : stmt) (st : State) : State :=
  match c with
  | Construct cls sv iv fv dv lv val =>
      (Token_init cls sv iv fv dv lv val st).2
  | Makeroot cls gi gni => (Token_makeroot cls gi gni st).2
  end.

Definition run (prog : list stmt) (st : State) : State :=
  foldl (fun st c => exec c st) st prog.

(** ** Modules, histories and relations used in the statements *)

(** Two states with the same class attributes. *)
Definition same_attrs (st st' : State) : Prop :=
  forall c, attrs st c = attrs st' c.

(** What lines 137-144 make of the register when the name is new. *)
Definition Register_insert (outer : Register) (s : Token) (name : string)
    : Register :=
  match OrderedDict.get outer (__class__ s) with
  | Some register =>
      OrderedDict.set outer (__class__ s) (OrderedDict.set register name s)
  | None =>
      OrderedDict.set
        (OrderedDict.set outer (__class__ s) OrderedDict.empty)
        (__class__ s) (OrderedDict.set OrderedDict.empty name s)
  end.

(** The class [A(Token)] and the module
    [A.makeroot(); t1 = A("X", 1); A.makeroot(); t2 = A("X", 1)]. *)
Definition class_A : pyclass := Subclass "A" Token_class.

Definition two_equal_tokens : M (Token * Token) :=
  Token_makeroot class_A true false;;
  t1 ← Token_init class_A (Some "X") (Some 1) VNone VNone VNone None;
  Token_makeroot class_A true false;;
  t2 ← Token_init class_A (Some "X") (Some 1) VNone VNone VNone None;
  mret (t1, t2).

Definition token_with_list (l : pyval) : Token :=
  mkToken class_A (mkTokenValue 16 (Some "X") None VNone VNone l).

(** The module of the docstring, with both indexes enabled:
    [Comparison.makeroot(True, True)], then [EQ], [LT] of [Comparison] and
    [EX], [NX] of [Existence]. *)
Definition Comparison : pyclass := Subclass "Comparison" Token_class.
Definition Existence : pyclass := Subclass "Existence" Comparison.

Definition comparison_module : list stmt :=
  [ Makeroot Comparison true true;
    Construct Comparison (Some "EQ") (Some 0) VNone VNone VNone None;
    Construct Comparison (Some "LT") (Some 1) VNone VNone VNone None;
    Construct Existence (Some "EX") None VNone VNone VNone None;
    Construct Existence (Some "NX") (Some 3) VNone VNone VNone None ].

Definition comparison_state : State := run comparison_module initial_state.

(** The registries of [Comparison] once the module has run. *)
Definition comparison_register : Register :=
  Eval vm_compute in
    match getattr _register comparison_state Comparison with
    | Some (_, r) => r
    | None => []
    end.

Definition comparison_index : OrderedDict string Token :=
  Eval vm_compute in
    match getattr _index comparison_state Comparison with
    | Some (_, i) => i
    | None => []
    end.

Definition comparison_numindex : OrderedDict (option Z) Token :=
  Eval vm_compute in
    match getattr _numindex comparison_state Comparison with
    | Some (_, i) => i
    | None => []
    end.

(** [Existence("EX", 7)] after the module has run. *)
Definition second_EX : TokenValue :=
  mkTokenValue (next_id comparison_state) (Some "EX") (Some 7)
    VNone VNone VNone.

Definition first_EX : Token :=
  mkToken Existence (mkTokenValue 48 (Some "EX") None VNone VNone VNone).

(** [Existence("EQ")] after the module has run: new in [Existence], held by
    the string index of [Comparison]. *)
Definition shadow_EQ : TokenValue :=
  mkTokenValue (next_id comparison_state) (Some "EQ") None VNone VNone VNone.

Definition first_EQ : Token :=
  mkToken Comparison (mkTokenValue 16 (Some "EQ") (Some 0) VNone VNone VNone).

(** The class [R(Token)] with both indexes, and the module
    [R.makeroot(True, True); A = R("A")]. *)
Definition class_R : pyclass := Subclass "R" Token_class.

Definition numbered_root : list stmt :=
  [ Makeroot class_R true true;
    Construct class_R (Some "A") None VNone VNone VNone None ].

Definition numbered_state : State := run numbered_root initial_state.

Definition token_A : Token :=
  mkToken class_R (mkTokenValue 16 (Some "A") None VNone VNone VNone).

Definition value_B : TokenValue :=
  mkTokenValue (next_id numbered_state) (Some "B") None VNone VNone VNone.

(** [Existence.makeroot()] after the module has run, then
    [Existence("ZZ", 0)]: the int value is the one of [EQ]. *)
Definition nested_state : State :=
  (Token_makeroot Existence true false comparison_state).2.

Definition value_ZZ : TokenValue :=
  mkTokenValue (next_id nested_state) (Some "ZZ") (Some 0) VNone VNone VNone.

(** A computation all of whose outcomes relate the state before to the
    state after. *)
Definition preserves {A} (Rel : State -> State -> Prop) (m : M A) : Prop :=
  forall st r st', m st = (r, st') -> Rel st st'.

(** The classes that define [_index], and those that define [_numindex],
    are the same in both states. *)
Definition same_indexes_defined (st st' : State) : Prop :=
  forall c,
    (_index (attrs st' c) = None <-> _index (attrs st c) = None)
    /\ (_numindex (attrs st' c) = None <-> _numindex (attrs st c) = None).

(** The statements that give [cls] a string index, or an int index, to look
    up: [makeroot] with the flag set, called on [cls] or on a class that
    [cls] inherits from. *)
Definition enables_index (cls : pyclass) (c : stmt) : bool :=
  match c with
  | Makeroot r globalIndex _ => globalIndex && issubclass cls r
  | Construct _ _ _ _ _ _ _ => false
  end.

Definition enables_numindex (cls : pyclass) (c : stmt) : bool :=
  match c with
  | Makeroot r _ globalNumIndex => globalNumIndex && issubclass cls r
  | Construct _ _ _ _ _ _ _ => false
  end.

(** [Comparison.makeroot(False, False)], then two tokens. *)
Definition unindexed_module : list stmt :=
  [ Makeroot Comparison false false;
    Construct Comparison (Some "EQ") (Some 0) VNone VNone VNone None;
    Construct Existence (Some "EX") (Some 1) VNone VNone VNone None ].

(** The registration that a statement performs: a construction whose value
    bundle has a name that the register of its class does not hold stores
    the new token, at line 144, in the register seen from its class.  The
    result is the class owning that register, and the token. *)
Definition registration (c : stmt) (st : State) : option (pyclass * Token) :=
  match c with
  | Makeroot _ _ _ => None
  | Construct cls sv iv fv dv lv val =>
      match resolve_val sv iv fv dv lv val st with
      | (Return v, _) =>
          match strval v, getattr _register st cls with
          | Some name, Some (owner, outer) =>
              match OrderedDict.get outer cls
                    ≫= (fun register => OrderedDict.get register name) with
              | Some _ => None
              | None => Some (owner, mkToken cls v)
              end
          | _, _ => None
          end
      | (Raise _, _) => None
      end
  end.

(** For each class, the tokens stored so far in the register that the class
    owns, oldest first; [makeroot] gives the class a new, empty register. *)
Definition History : Type := pyclass -> list Token.

Definition record (c : stmt) (st : State) (h : History) : History :=
  match c with
  | Makeroot r _ _ => fun o => if decide (o = r) then [] else h o
  | Construct _ _ _ _ _ _ _ =>
      match registration c st with
      | Some (owner, t) =>
          fun o => if decide (o = owner) then (h o ++ [t])%list else h o
      | None => h
      end
  end.

Fixpoint history (prog : list stmt) (st : State) (h : History) : History :=
  match prog with
  | [] => h
  | c :: prog' => history prog' (exec c st) (record c st h)
  end.

Definition no_history : History := fun _ => [].

(** The enumeration as the specification words it, from the tokens that a
    register received, in the order it received them: the classes in the
    order in which each first received a token, and for each class that is
    [cls] or descends from it, its tokens in the order of insertion. *)
Definition classes_by_first_token (log : list Token) : list pyclass :=
  foldl (fun seen t =>
           if decide (__class__ t ∈ seen) then seen
           else (seen ++ [__class__ t])%list)
        [] log.

Definition tokens_of_class (c : pyclass) (log : list Token) : list Token :=
  filter (fun t => __class__ t = c) log.

Definition tokens_spec (cls : pyclass) (log : list Token) : list Token :=
  c ← filter (fun c => issubclass c cls) (classes_by_first_token log);
  tokens_of_class c log.

(** The register that holds the tokens of [log]. *)
Definition token_name (t : Token) : string := default "" (Token_str t).

Definition entries (c : pyclass) (log : list Token)
    : OrderedDict string Token :=
  (fun t => (token_name t, t)) <$> tokens_of_class c log.

Definition register_of (log : list Token) : Register :=
  (fun c => (c, entries c log)) <$> classes_by_first_token log.

Definition same_registers (st st' : State) : Prop :=
  forall c, _register (attrs st' c) = _register (attrs st c).

(** Every register is the register of the history of the class that owns
    it. *)
Definition registers_follow (st : State) (h : History) : Prop :=
  forall o outer,
    _register (attrs st o) = Some outer -> outer = register_of (h o).

(** [Comparison] and [Existence] constructed in turns: the enumeration
    groups the tokens by class. *)
Definition interleaved_module : list stmt :=
  [ Makeroot Comparison true false;
    Construct Comparison (Some "LT") None VNone VNone VNone None;
    Construct Existence (Some "NX") None VNone VNone VNone None;
    Construct Comparison (Some "EQ") None VNone VNone VNone None;
    Construct Existence (Some "EX") None VNone VNone VNone None ].

(** A value bundle without a name, passed as [val] next to a [strval]:
    [Comparison("X", 3, val=TokenValue(None, 3))]. *)
Definition nameless_value : TokenValue :=
  mkTokenValue 1024 None (Some 3) VNone VNone VNone.

(** [Status], with [Success] and [Error] below it, and a class below
    [Error]. *)
Definition Status : pyclass := Subclass "Status" Token_class.
Definition Success : pyclass := Subclass "Success" Status.
Definition Error : pyclass := Subclass "Error" Status.
Definition FatalError : pyclass := Subclass "FatalError" Error.

(** The states between which only classes of the MRO of [cls] changed
    their attributes, and no class gained or lost a register. *)
Definition touches_only (cls : pyclass) (st st' : State) : Prop :=
  forall o,
    (o ∉ mro cls -> attrs st' o = attrs st o)
    /\ (_register (attrs st' o) = None <-> _register (attrs st o) = None).

(** A hierarchy of its own next to [Comparison]. *)
Definition LogEvent : pyclass := Subclass "LogEvent" Token_class.

(** [Existence("ZZ", 9)] and [Existence("ZZ", 0)] after the module has
    run: the first passes every check, the second has the int value of
    [EQ]. *)
Definition value_ZZ9 : TokenValue :=
  mkTokenValue (next_id comparison_state) (Some "ZZ") (Some 9)
    VNone VNone VNone.

Definition value_ZZ0 : TokenValue :=
  mkTokenValue (next_id comparison_state) (Some "ZZ") (Some 0)
    VNone VNone VNone.

(** [Comparison.makeroot(True, True)] called again after the module has
    run, then [Comparison("EQ", 0)] a second time. *)
Definition remade_state : State :=
  (Token_makeroot Comparison true true comparison_state).2.

Definition second_EQ : TokenValue :=
  mkTokenValue (next_id remade_state) (Some "EQ") (Some 0) VNone VNone VNone.

(** An [OrderedDict] with one entry per key, all of whose entries satisfy
    [P]. *)
Definition dict_ok {K V} (P : K -> V -> Prop) (d : OrderedDict K V) : Prop :=
  NoDup (OrderedDict.keys d) /\ forall k v, (k, v) ∈ d -> P k v.

(** The registries of a class [o] are well formed: the register has, for
    each class, which inherits from [o], at least one token, each under
    its name and of that class; the string index has tokens under their
    names and the int index tokens under their int values, all of classes
    that inherit from [o]. *)
Definition named_in (c : pyclass) (name : string) (t : Token) : Prop :=
  Token_str t = Some name /\ __class__ t = c.

Definition register_ok (o : pyclass) (outer : Register) : Prop :=
  dict_ok (fun c register =>
             issubclass c o = true /\ register <> []
             /\ dict_ok (named_in c) register) outer.

Definition index_ok (o : pyclass) (index : OrderedDict string Token) : Prop :=
  dict_ok (fun name t =>
             Token_str t = Some name /\ issubclass (__class__ t) o = true)
          index.

Definition numindex_ok (o : pyclass) (index : OrderedDict (option Z) Token)
    : Prop :=
  dict_ok (fun k t => Token_int t = k /\ issubclass (__class__ t) o = true)
          index.

Definition attrs_ok (o : pyclass) (a : ClassAttrs) : Prop :=
  (forall outer, _register a = Some outer -> register_ok o outer)
  /\ (forall index, _index a = Some index -> index_ok o index)
  /\ (forall index, _numindex a = Some index -> numindex_ok o index).

Definition well_formed (st : State) : Prop :=
  forall o, attrs_ok o (attrs st o).

(** The relation of a state to a later one that is well formed if the
    first is. *)
Definition keeps_well_formed (st st' : State) : Prop :=
  well_formed st -> well_formed st'.

(** A dictionary that holds every entry of another, and a register each of
    whose class registers does. *)
Definition dict_grows {K V} `{EqDecision K} (d d' : OrderedDict K V) : Prop :=
  forall k v, OrderedDict.get d k = Some v -> OrderedDict.get d' k = Some v.

Definition register_grows (outer outer' : Register) : Prop :=
  forall c register,
    OrderedDict.get outer c = Some register ->
    exists register',
      OrderedDict.get outer' c = Some register'
      /\ dict_grows register register'.

(** The values of one attribute in two states: defined on the same classes,
    and related by [R] where defined. *)
Definition attr_rel {A} (attr : ClassAttrs -> option A) (R : A -> A -> Prop)
    (st st' : State) : Prop :=
  forall o,
    match attr (attrs st o), attr (attrs st' o) with
    | Some a, Some a' => R a a'
    | None, None => True
    | _, _ => False
    end.

(** The registries of the second state hold every entry of those of the
    first. *)
Definition grows (st st' : State) : Prop :=
  attr_rel _register register_grows st st'
  /\ attr_rel _index dict_grows st st'
  /\ attr_rel _numindex dict_grows st st'.

(** * Properties *)

(** ** OrderedDict *)

Section OrderedDict_facts.
Context {K V : Type} `{EqDecision K}.
Implicit Types (d : OrderedDict K V) (k : K) (v : V).

Lemma get_set_eq d k v : OrderedDict.get (OrderedDict.set d k v) k = Some v.
Proof.
  induction d as [|[k' v'] d IH]; simpl.
  - by rewrite decide_True.
  - destruct (decide (k' = k)) as [->|Hne]; simpl.
    + by rewrite decide_True.
    + by rewrite decide_False.
Qed.

Lemma get_set_ne d k k' v :
  k ≠ k' -> OrderedDict.get (OrderedDict.set d k v) k' = OrderedDict.get d k'.
Proof.
  intros Hne. induction d as [|[k0 v0] d IH]; simpl.
  - by rewrite decide_False.
  - destruct (decide (k0 = k)) as [->|Hne0]; simpl.
    + by rewrite !decide_False.
    + by rewrite IH.
Qed.

Lemma set_fresh d k v :
  OrderedDict.get d k = None -> OrderedDict.set d k v = (d ++ [(k, v)])%list.
Proof.
  induction d as [|[k' v'] d IH]; simpl; [done|].
  destruct (decide (k' = k)); [done|]. intros Hd. by rewrite IH.
Qed.

Lemma get_None_keys d k :
  OrderedDict.get d k = None <-> k ∉ OrderedDict.keys d.
Proof.
  unfold OrderedDict.keys.
  induction d as [|[k' v'] d IH]; simpl.
  - split; [intros _; apply not_elem_of_nil | done].
  - rewrite not_elem_of_cons. destruct (decide (k' = k)) as [->|Hne].
    + split; [done | intros [? _]; done].
    + rewrite IH. split; [intros ?; split; [congruence | done] | by intros [_ ?]].
Qed.

Lemma mem_get d k :
  OrderedDict.mem d k = true <-> is_Some (OrderedDict.get d k).
Proof.
  unfold OrderedDict.mem. destruct (OrderedDict.get d k).
  - split; [by eauto | done].
  - split; [done | by intros [? ?]].
Qed.
End OrderedDict_facts.

(** ** Attribute lookup and the store *)

Section store_facts.
Context {A : Type} (attr : ClassAttrs -> option A).

Lemma lookup_mro_frame st c f l :
  (forall a, attr (f a) = attr a) ->
  lookup_mro attr (attrs (update_attrs st c f)) l
  = lookup_mro attr (attrs st) l.
Proof.
  intros Hf. induction l as [|c' l IH]; cbn [lookup_mro]; [done|].
  rewrite IH. unfold update_attrs; cbn [attrs].
  destruct (decide (c' = c)) as [->|]; [by rewrite Hf | done].
Qed.

Lemma lookup_mro_owner st l c a :
  lookup_mro attr (attrs st) l = Some (c, a) ->
  c ∈ l /\ attr (attrs st c) = Some a.
Proof.
  induction l as [|c' l IH]; simpl; [done|].
  destruct (attr (attrs st c')) eqn:E.
  - intros [= <- <-]. split; [left | done].
  - intros [? ?]%IH. split; [by right | done].
Qed.

Lemma lookup_mro_update st c f l a a' :
  lookup_mro attr (attrs st) l = Some (c, a) ->
  attr (f (attrs st c)) = Some a' ->
  lookup_mro attr (attrs (update_attrs st c f)) l = Some (c, a').
Proof.
  intros Hl Hf. induction l as [|c' l IH]; cbn [lookup_mro] in *; [done|].
  unfold update_attrs at 1; cbn [attrs].
  destruct (decide (c' = c)) as [->|Hne].
  - rewrite Hf. destruct (attr (attrs st c)); [done|].
    by apply lookup_mro_owner in Hl as [_ ?].
  - destruct (attr (attrs st c')); [congruence | by apply IH].
Qed.

Lemma lookup_mro_None st l :
  lookup_mro attr (attrs st) l = None <->
  forall c, c ∈ l -> attr (attrs st c) = None.
Proof.
  induction l as [|c' l IH]; simpl.
  - split; [intros _ c Hc; by apply elem_of_nil in Hc | done].
  - destruct (attr (attrs st c')) eqn:E.
    + split; [done|]. intros Hall. rewrite Hall in E; [done | left].
    + rewrite IH. split.
      * intros Hall c [->|Hc]%elem_of_cons; auto.
      * intros Hall c Hc. apply Hall. by right.
Qed.
End store_facts.

Lemma getattr_register_set_register st c l r r' :
  lookup_mro _register (attrs st) l = Some (c, r) ->
  lookup_mro _register (attrs (set_register st c r')) l = Some (c, r').
Proof. intros Hl. by eapply lookup_mro_update. Qed.

Lemma getattr_index_set_index st c l i i' :
  lookup_mro _index (attrs st) l = Some (c, i) ->
  lookup_mro _index (attrs (set_index st c i')) l = Some (c, i').
Proof. intros Hl. by eapply lookup_mro_update. Qed.

Lemma getattr_numindex_set_numindex st c l i i' :
  lookup_mro _numindex (attrs st) l = Some (c, i) ->
  lookup_mro _numindex (attrs (set_numindex st c i')) l = Some (c, i').
Proof. intros Hl. by eapply lookup_mro_update. Qed.

Lemma mro_head c : exists l, mro c = c :: l.
Proof. destruct c; simpl; eauto. Qed.

Lemma issubclass_refl c : issubclass c c = true.
Proof.
  apply bool_decide_eq_true. destruct (mro_head c) as [l ->]. left.
Qed.

(** ** The phases of Token.__init__ *)

Ltac unfold_M :=
  unfold mbind, M_bind, bind, mret, M_ret, ret, raise, modify, read_attr.

(** Runs the first statement of a sequence. *)
Ltac step_bind := unfold mbind at 1; unfold M_bind at 1; unfold bind at 1.

Lemma lookup_mro_ext {A} (attr : ClassAttrs -> option A) env env' l :
  (forall c, env c = env' c) -> lookup_mro attr env l = lookup_mro attr env' l.
Proof.
  intros He. induction l as [|c l IH]; simpl; [done|]. by rewrite He, IH.
Qed.

Lemma getattr_ext {A} (attr : ClassAttrs -> option A) st st' cls :
  same_attrs st st' -> getattr attr st cls = getattr attr st' cls.
Proof. intros He. by apply lookup_mro_ext. Qed.

Lemma resolve_val_attrs sv iv fv dv lv val st r st0 :
  resolve_val sv iv fv dv lv val st = (r, st0) -> attrs st0 = attrs st.
Proof. destruct val; intros [= _ <-]; done. Qed.

Lemma resolve_val_returns sv iv fv dv lv val st :
  exists v st0, resolve_val sv iv fv dv lv val st = (Return v, st0).
Proof. destruct val; simpl; eauto. Qed.

Lemma Register_insert_get outer s name :
  exists register,
    OrderedDict.get (Register_insert outer s name) (__class__ s) = Some register
    /\ OrderedDict.get register name = Some s.
Proof.
  unfold Register_insert. destruct (OrderedDict.get outer (__class__ s));
    eexists; rewrite get_set_eq; (split; [done|]); by rewrite get_set_eq.
Qed.

Lemma register_local_duplicate s name st owner outer register existing :
  getattr _register st (__class__ s) = Some (owner, outer) ->
  OrderedDict.get outer (__class__ s) = Some register ->
  OrderedDict.get register name = Some existing ->
  register_local s name st
  = (Raise (RuntimeError MSG_MICRO_SEGMENT
              [AStr (Token_str s); ATok s; ATok existing]), st).
Proof.
  intros Ho Hr Hn. unfold register_local. unfold_M.
  by rewrite Ho, Hr, Hn.
Qed.

Lemma register_local_fresh s name st owner outer :
  getattr _register st (__class__ s) = Some (owner, outer) ->
  (forall register,
     OrderedDict.get outer (__class__ s) = Some register ->
     OrderedDict.get register name = None) ->
  exists st',
    register_local s name st = (Return tt, st')
    /\ next_id st' = next_id st
    /\ same_attrs st' (set_register st owner (Register_insert outer s name)).
Proof.
  intros Ho Hfresh. unfold register_local, Register_insert. unfold_M.
  rewrite Ho. destruct (OrderedDict.get outer (__class__ s)) as [register|].
  - rewrite (Hfresh register eq_refl). eexists. split; [done|]. by split.
  - simpl. eexists. split; [done|]. split; [done|].
    intros c. unfold set_register, update_attrs; simpl.
    destruct (decide (c = owner)); [|done]. by rewrite decide_True.
Qed.

Lemma register_index_absent s name st :
  getattr _index st (__class__ s) = None ->
  register_index s name st = (Return tt, st).
Proof. intros Hi. unfold register_index. by rewrite Hi. Qed.

Lemma register_index_duplicate s name st owner index existing :
  getattr _index st (__class__ s) = Some (owner, index) ->
  OrderedDict.get index name = Some existing ->
  register_index s name st
  = (Raise (RuntimeError MSG_SEGMENT
              [AStr (Token_str s); ATok s; ATok existing]), st).
Proof. intros Hi Hn. unfold register_index. by rewrite Hi, Hn. Qed.

Lemma register_index_fresh s name st owner index :
  getattr _index st (__class__ s) = Some (owner, index) ->
  OrderedDict.get index name = None ->
  register_index s name st
  = (Return tt, set_index st owner (OrderedDict.set index name s)).
Proof. intros Hi Hn. unfold register_index. by rewrite Hi, Hn. Qed.

Lemma register_numindex_absent s st :
  getattr _numindex st (__class__ s) = None ->
  register_numindex s st = (Return tt, st).
Proof. intros Hi. unfold register_numindex. by rewrite Hi. Qed.

Lemma register_numindex_duplicate s st owner index existing :
  getattr _numindex st (__class__ s) = Some (owner, index) ->
  OrderedDict.get index (Token_int s) = Some existing ->
  register_numindex s st
  = (Raise (RuntimeError MSG_SEGMENT
              [AInt (Token_int s); ATok s; ATok existing]), st).
Proof. intros Hi Hn. unfold register_numindex. by rewrite Hi, Hn. Qed.

Lemma register_numindex_fresh s st owner index :
  getattr _numindex st (__class__ s) = Some (owner, index) ->
  OrderedDict.get index (Token_int s) = None ->
  register_numindex s st
  = (Return tt, set_numindex st owner (OrderedDict.set index (Token_int s) s)).
Proof. intros Hi Hn. unfold register_numindex. by rewrite Hi, Hn. Qed.

(** The registries that an update of another registry leaves alone. *)
Lemma getattr_index_set_register st o r cls :
  getattr _index (set_register st o r) cls = getattr _index st cls.
Proof. by apply lookup_mro_frame. Qed.

Lemma getattr_numindex_set_register st o r cls :
  getattr _numindex (set_register st o r) cls = getattr _numindex st cls.
Proof. by apply lookup_mro_frame. Qed.

Lemma getattr_register_set_index st o i cls :
  getattr _register (set_index st o i) cls = getattr _register st cls.
Proof. by apply lookup_mro_frame. Qed.

Lemma getattr_numindex_set_index st o i cls :
  getattr _numindex (set_index st o i) cls = getattr _numindex st cls.
Proof. by apply lookup_mro_frame. Qed.

Lemma getattr_register_set_numindex st o i cls :
  getattr _register (set_numindex st o i) cls = getattr _register st cls.
Proof. by apply lookup_mro_frame. Qed.

Lemma getattr_index_set_numindex st o i cls :
  getattr _index (set_numindex st o i) cls = getattr _index st cls.
Proof. by apply lookup_mro_frame. Qed.

(** [Token.__init__] once the value bundle is resolved and has a name. *)
Lemma Token_init_named cls sv iv fv dv lv val st v st0 name :
  resolve_val sv iv fv dv lv val st = (Return v, st0) ->
  strval v = Some name ->
  Token_init cls sv iv fv dv lv val st
  = (register_local (mkToken cls v) name;;
     register_index (mkToken cls v) name;;
     register_numindex (mkToken cls v);;
     mret (mkToken cls v)) st0.
Proof.
  intros Hv Hname. unfold Token_init.
  unfold mbind at 1. unfold M_bind at 1. unfold bind at 1.
  rewrite Hv. unfold Token_str; simpl. by rewrite Hname.
Qed.

(** ** Equality of tokens *)

Lemma str_eq_true a b : str_eq a b = true <-> a = b.
Proof.
  destruct a, b; simpl; rewrite ?bool_decide_eq_true; split; congruence.
Qed.

Lemma int_eq_true a b : int_eq a b = true <-> a = b.
Proof.
  destruct a, b; simpl; rewrite ?Z.eqb_eq; split; congruence.
Qed.

Lemma py_and_true a b : py_and a b = true <-> a = true /\ b = true.
Proof. destruct a, b; simpl; intuition congruence. Qed.

(** C1: two tokens compare equal with [==] exactly when they have the same
    class, the same string value and the same int value; two absent int
    values are the same value. *)
Theorem Token_eq_iff (s other : Token) :
  Token_eq s other = true <->
  __class__ s = __class__ other
  /\ Token_str s = Token_str other
  /\ Token_int s = Token_int other.
Proof.
  unfold Token_eq, class_eq.
  rewrite !py_and_true, bool_decide_eq_true, str_eq_true, int_eq_true.
  tauto.
Qed.

Lemma Token_eq_absent_int c name v1 v2 :
  strval v1 = Some name -> strval v2 = Some name ->
  intval v1 = None -> intval v2 = None ->
  Token_eq (mkToken c v1) (mkToken c v2) = true.
Proof.
  intros H1 H2 H3 H4. apply Token_eq_iff. unfold Token_str, Token_int.
  simpl. by rewrite H1, H2, H3, H4.
Qed.

(** ** Hashing of tokens *)

(** On the addresses that the allocator hands out, the hash of an object
    is its address divided by the alignment. *)
Lemma object_hash_aligned k :
  0 <= k < 2 ^ 59 -> object_hash (ALIGNMENT * k) = k.
Proof.
  intros Hk. unfold object_hash, ALIGNMENT.
  rewrite (Z.mod_small (16 * k)) by lia.
  rewrite Z.shiftr_div_pow2, Z.shiftl_mul_pow2 by lia.
  replace (16 * k / 2 ^ 4) with k by (change (2 ^ 4) with 16; by rewrite Z.mul_comm, Z.div_mul).
  replace (16 * k * 2 ^ 60) with (k * 2 ^ 64) by lia.
  rewrite Z.mod_mul by lia. rewrite Z.lor_0_r.
  destruct (k <? 2 ^ 63) eqn:E; [|apply Z.ltb_ge in E; lia].
  destruct (k =? -1) eqn:E'; [apply Z.eqb_eq in E'; lia | done].
Qed.

(** The hash of a token is that of the identity of its value bundle: two
    bundles at different addresses give different hashes, whatever they
    hold. *)
Lemma Token_hash_identity (s other : Token) k k' :
  0 <= k < 2 ^ 59 -> 0 <= k' < 2 ^ 59 ->
  tv_id (_val s) = ALIGNMENT * k -> tv_id (_val other) = ALIGNMENT * k' ->
  Token_hash s = Token_hash other <-> tv_id (_val s) = tv_id (_val other).
Proof.
  intros Hk Hk' Hs Ho. unfold Token_hash, TokenValue_hash.
  rewrite Hs, Ho, !object_hash_aligned by done. unfold ALIGNMENT. lia.
Qed.

(** C2: the claim asks that tokens equal under [==] have equal hashes.
    Here the code is run on two tokens of the same class, name and int
    value, each built with its own value bundle: they are equal under
    [==], and their hashes differ. *)
Theorem equal_tokens_hash_differently :
  exists t1 t2 st,
    two_equal_tokens initial_state = (Return (t1, t2), st)
    /\ Token_eq t1 t2 = true
    /\ Token_hash t1 <> Token_hash t2.
Proof. do 3 eexists. split; [reflexivity|]. split; [reflexivity | by vm_compute]. Qed.

(** ** The tuple accessor *)

(** C10: when the list value of a token is not callable, the property
    [tuple] raises a [TypeError] where the property [list] returns the list
    value. *)
Theorem Token_tuple_raises (s : Token) :
  callable (listval (_val s)) = false ->
  Token_list s = Return (listval (_val s))
  /\ Token_tuple s
     = Raise (TypeError ("'" ++ type_name (listval (_val s))
                         ++ "' object is not callable"))
  /\ Token_tuple s <> Token_list s.
Proof.
  intros Hc. unfold Token_tuple, Token_list.
  destruct (listval (_val s)); simpl in *; try done.
Qed.

Lemma Token_tuple_raises_witness :
  (Token_tuple (token_with_list (VTuple [VInt 1; VInt 2]))
   = Raise (TypeError "'tuple' object is not callable"))
  /\ Token_tuple (token_with_list VNone)
     = Raise (TypeError "'NoneType' object is not callable").
Proof.
  split.
  - exact (proj1 (proj2 (Token_tuple_raises
                           (token_with_list (VTuple [VInt 1; VInt 2]))
                           eq_refl))).
  - exact (proj1 (proj2 (Token_tuple_raises (token_with_list VNone) eq_refl))).
Defined.

(** A callable list value is called, and its result returned. *)
Lemma Token_tuple_callable (s : Token) r :
  listval (_val s) = VCallable r -> Token_tuple s = Return r.
Proof. intros Hl. unfold Token_tuple, Token_list. by rewrite Hl. Qed.

(** ** Lookup *)

(** C6: when a class of the MRO has a string index, looking up a key that
    the index holds returns the token registered under it; looking up a key
    that it does not hold raises [KeyError], or returns [None] when
    [noneIfMissing] is true.  The state is left as it was. *)
Theorem Token_byval_spec st cls owner index key :
  getattr _index st cls = Some (owner, index) ->
  match OrderedDict.get index key with
  | Some token =>
      forall noneIfMissing,
        Token_byval cls key noneIfMissing st = (Return (Some token), st)
  | None =>
      Token_byval cls key false st
      = (Raise (KeyError "token with this string value does not exist"
                  [AStr (Some key)]), st)
      /\ Token_byval cls key true st = (Return None, st)
  end.
Proof.
  intros Hi. unfold Token_byval. unfold_M. rewrite Hi.
  destruct (OrderedDict.get index key); [done | by split].
Qed.

Lemma comparison_state_register c :
  c = Comparison \/ c = Existence ->
  getattr _register comparison_state c = Some (Comparison, comparison_register).
Proof. by intros [-> | ->]; vm_compute. Qed.

Lemma comparison_state_index c :
  c = Comparison \/ c = Existence ->
  getattr _index comparison_state c = Some (Comparison, comparison_index).
Proof. by intros [-> | ->]; vm_compute. Qed.

Lemma comparison_state_numindex c :
  c = Comparison \/ c = Existence ->
  getattr _numindex comparison_state c
  = Some (Comparison, comparison_numindex).
Proof. by intros [-> | ->]; vm_compute. Qed.

Lemma Token_byval_spec_witness :
  Token_byval Comparison "NOPE" false comparison_state
  = (Raise (KeyError "token with this string value does not exist"
              [AStr (Some "NOPE")]), comparison_state)
  /\ Token_byval Comparison "NOPE" true comparison_state
     = (Return None, comparison_state).
Proof.
  pose proof (Token_byval_spec comparison_state Comparison Comparison
                comparison_index "NOPE"
                (comparison_state_index Comparison (or_introl eq_refl))) as HT.
  exact HT.
Defined.

(** ** Duplicates *)

(** C3: constructing a token whose name the register of its class already
    holds raises the [RuntimeError] of the class-level check, and no class
    attribute has changed: the string index and the int index seen from any
    class are the ones from before. *)
Theorem duplicate_in_class_rejected
    cls sv iv fv dv lv val st v st0 name owner outer register existing :
  resolve_val sv iv fv dv lv val st = (Return v, st0) ->
  strval v = Some name ->
  getattr _register st cls = Some (owner, outer) ->
  OrderedDict.get outer cls = Some register ->
  OrderedDict.get register name = Some existing ->
  Token_init cls sv iv fv dv lv val st
  = (Raise (RuntimeError MSG_MICRO_SEGMENT
              [AStr (Some name); ATok (mkToken cls v); ATok existing]), st0)
  /\ attrs st0 = attrs st
  /\ (forall c, getattr _index st0 c = getattr _index st c)
  /\ (forall c, getattr _numindex st0 c = getattr _numindex st c).
Proof.
  intros Hv Hname Ho Hr Hn.
  pose proof (resolve_val_attrs _ _ _ _ _ _ _ _ _ Hv) as Hattrs.
  split; [|split; [done|]].
  - rewrite (Token_init_named _ _ _ _ _ _ _ _ _ _ _ Hv Hname).
    unfold mbind at 1. unfold M_bind at 1. unfold bind at 1.
    erewrite register_local_duplicate; [|simpl|simpl; done|done].
    + unfold Token_str; simpl. by rewrite Hname.
    + unfold getattr. rewrite Hattrs. exact Ho.
  - unfold getattr. by rewrite Hattrs.
Qed.

Lemma duplicate_in_class_rejected_witness :
  exists st0,
    Token_init Existence (Some "EX") (Some 7) VNone VNone VNone None
      comparison_state
    = (Raise (RuntimeError MSG_MICRO_SEGMENT
                [AStr (Some "EX"); ATok (mkToken Existence second_EX);
                 ATok first_EX]), st0)
    /\ getattr _index st0 Existence = getattr _index comparison_state Existence
    /\ getattr _numindex st0 Existence
       = getattr _numindex comparison_state Existence.
Proof.
  eexists.
  pose proof (duplicate_in_class_rejected
                Existence (Some "EX") (Some 7) VNone VNone VNone None
                comparison_state second_EX _ "EX" Comparison
                comparison_register
                [("EX", first_EX);
                 ("NX", mkToken Existence
                          (mkTokenValue 64 (Some "NX") (Some 3)
                             VNone VNone VNone))]
                first_EX
                eq_refl eq_refl
                (comparison_state_register Existence (or_intror eq_refl))
                eq_refl eq_refl) as (H1 & _ & H2 & H3).
  split; [exact H1|]. split; [apply H2 | apply H3].
Defined.

(** C4: when the name is new in the register of the class and the string
    index seen from the class already holds it, construction raises the
    [RuntimeError] of the index check; the new token is by then in the
    register of its class and stays there, and the index is unchanged. *)
Theorem global_duplicate_keeps_local_entry
    cls sv iv fv dv lv val st v st0 name owner outer iowner index existing :
  resolve_val sv iv fv dv lv val st = (Return v, st0) ->
  strval v = Some name ->
  getattr _register st cls = Some (owner, outer) ->
  (forall register,
     OrderedDict.get outer cls = Some register ->
     OrderedDict.get register name = None) ->
  getattr _index st cls = Some (iowner, index) ->
  OrderedDict.get index name = Some existing ->
  exists st' outer' register',
    Token_init cls sv iv fv dv lv val st
    = (Raise (RuntimeError MSG_SEGMENT
                [AStr (Some name); ATok (mkToken cls v); ATok existing]), st')
    /\ getattr _register st' cls = Some (owner, outer')
    /\ OrderedDict.get outer' cls = Some register'
    /\ OrderedDict.get register' name = Some (mkToken cls v)
    /\ getattr _index st' cls = Some (iowner, index).
Proof.
  intros Hv Hname Ho Hfresh Hi Hdup.
  pose proof (resolve_val_attrs _ _ _ _ _ _ _ _ _ Hv) as Hattrs.
  set (s := mkToken cls v).
  assert (getattr _register st0 (__class__ s) = Some (owner, outer)) as Ho0
    by (unfold getattr; rewrite Hattrs; exact Ho).
  destruct (register_local_fresh s name st0 owner outer Ho0 Hfresh)
    as (st1 & Hlocal & _ & Hsame).
  destruct (Register_insert_get outer s name) as (register' & Hg1 & Hg2).
  assert (getattr _index st1 cls = Some (iowner, index)) as Hi1.
  { rewrite (getattr_ext _ _ _ _ Hsame), getattr_index_set_register.
    unfold getattr. rewrite Hattrs. exact Hi. }
  exists st1, (Register_insert outer s name), register'.
  split; [|split; [|done]].
  - rewrite (Token_init_named _ _ _ _ _ _ _ _ _ _ _ Hv Hname). fold s.
    unfold mbind at 1. unfold M_bind at 1. unfold bind at 1. rewrite Hlocal.
    unfold mbind at 1. unfold M_bind at 1. unfold bind at 1.
    erewrite register_index_duplicate; [|exact Hi1|exact Hdup].
    unfold Token_str; simpl. by rewrite Hname.
  - rewrite (getattr_ext _ _ _ _ Hsame). unfold getattr.
    eapply getattr_register_set_register. exact Ho0.
Qed.

Lemma global_duplicate_keeps_local_entry_witness :
  exists st' outer' register',
    Token_init Existence (Some "EQ") None VNone VNone VNone None
      comparison_state
    = (Raise (RuntimeError MSG_SEGMENT
                [AStr (Some "EQ"); ATok (mkToken Existence shadow_EQ);
                 ATok first_EQ]), st')
    /\ getattr _register st' Existence = Some (Comparison, outer')
    /\ OrderedDict.get outer' Existence = Some register'
    /\ OrderedDict.get register' "EQ" = Some (mkToken Existence shadow_EQ)
    /\ getattr _index st' Existence = Some (Comparison, comparison_index).
Proof.
  assert (forall register,
            OrderedDict.get comparison_register Existence = Some register ->
            OrderedDict.get register "EQ" = None) as Hfresh.
  { intros register Hr. vm_compute in Hr. injection Hr as <-. reflexivity. }
  exact (global_duplicate_keeps_local_entry
           Existence (Some "EQ") None VNone VNone VNone None
           comparison_state shadow_EQ _ "EQ" Comparison comparison_register
           Comparison comparison_index first_EQ
           eq_refl eq_refl
           (comparison_state_register Existence (or_intror eq_refl))
           Hfresh
           (comparison_state_index Existence (or_intror eq_refl))
           eq_refl).
Defined.

(** ** The two indexes during construction *)

Lemma getattr_same_attrs {A} (attr : ClassAttrs -> option A) st st' cls :
  attrs st = attrs st' -> getattr attr st cls = getattr attr st' cls.
Proof. intros He. unfold getattr. by rewrite He. Qed.

(** The class that owns an attribute sees it as its own. *)
Lemma getattr_owner {A} (attr : ClassAttrs -> option A) st cls owner a :
  getattr attr st cls = Some (owner, a) ->
  owner ∈ mro cls /\ getattr attr st owner = Some (owner, a).
Proof.
  intros [Hin Hown]%lookup_mro_owner. split; [done|].
  unfold getattr. destruct (mro_head owner) as [l ->]. simpl. by rewrite Hown.
Qed.

(** The state after lines 137-144 when the name is new: the register has
    the token, the indexes are untouched. *)
Lemma register_local_fresh_indexes s name st st0 owner outer :
  attrs st0 = attrs st ->
  getattr _register st (__class__ s) = Some (owner, outer) ->
  (forall register,
     OrderedDict.get outer (__class__ s) = Some register ->
     OrderedDict.get register name = None) ->
  exists st1,
    register_local s name st0 = (Return tt, st1)
    /\ (forall c, getattr _index st1 c = getattr _index st c)
    /\ (forall c, getattr _numindex st1 c = getattr _numindex st c).
Proof.
  intros Hattrs Ho Hfresh.
  rewrite <- (getattr_same_attrs _ _ _ _ Hattrs) in Ho.
  destruct (register_local_fresh s name st0 owner outer Ho Hfresh)
    as (st1 & Hlocal & _ & Hsame).
  exists st1. split; [done|]. split; intros c.
  - by rewrite (getattr_ext _ _ _ _ Hsame), getattr_index_set_register,
      (getattr_same_attrs _ _ _ _ Hattrs).
  - by rewrite (getattr_ext _ _ _ _ Hsame), getattr_numindex_set_register,
      (getattr_same_attrs _ _ _ _ Hattrs).
Qed.

Lemma register_numindex_index s st r st' :
  register_numindex s st = (r, st') ->
  forall c, getattr _index st' c = getattr _index st c.
Proof.
  unfold register_numindex.
  destruct (getattr _numindex st (__class__ s)) as [[nowner numindex]|];
    [destruct (OrderedDict.get numindex (Token_int s))|];
    intros [= _ <-] c; by rewrite ?getattr_index_set_numindex.
Qed.

(** Lines 147-153 within [Token.__init__]: the name is checked against the
    string index seen from the class, and inserted there when new; the
    insertion stays whatever lines 155-161 do next. *)
Lemma Token_init_index
    cls sv iv fv dv lv val st v st0 name owner outer iowner index :
  resolve_val sv iv fv dv lv val st = (Return v, st0) ->
  strval v = Some name ->
  getattr _register st cls = Some (owner, outer) ->
  (forall register,
     OrderedDict.get outer cls = Some register ->
     OrderedDict.get register name = None) ->
  getattr _index st cls = Some (iowner, index) ->
  match OrderedDict.get index name with
  | Some existing =>
      exists st',
        Token_init cls sv iv fv dv lv val st
        = (Raise (RuntimeError MSG_SEGMENT
                    [AStr (Some name); ATok (mkToken cls v); ATok existing]),
           st')
        /\ getattr _index st' cls = Some (iowner, index)
  | None =>
      exists r st',
        Token_init cls sv iv fv dv lv val st = (r, st')
        /\ getattr _index st' cls
           = Some (iowner, (index ++ [(name, mkToken cls v)])%list)
  end.
Proof.
  intros Hv Hname Ho Hfresh Hi.
  pose proof (resolve_val_attrs _ _ _ _ _ _ _ _ _ Hv) as Hattrs.
  set (s := mkToken cls v).
  destruct (register_local_fresh_indexes s name st st0 owner outer
              Hattrs Ho Hfresh) as (st1 & Hlocal & Hi1 & Hn1).
  assert (Token_str s = Some name) as Hstr by done.
  destruct (OrderedDict.get index name) as [existing|] eqn:Hget.
  - eexists. rewrite (Token_init_named _ _ _ _ _ _ _ _ _ _ _ Hv Hname).
    fold s. step_bind. rewrite Hlocal. step_bind.
    erewrite register_index_duplicate; [|by rewrite Hi1|done].
    rewrite Hstr. split; [done|]. by rewrite Hi1.
  - pose proof (register_index_fresh s name st1 iowner index) as Hri.
    rewrite Hi1, (set_fresh _ _ _ Hget) in Hri. specialize (Hri Hi Hget).
    set (st2 := set_index st1 iowner _) in Hri.
    assert (getattr _index st2 cls
            = Some (iowner, (index ++ [(name, s)])%list)) as Hi2.
    { unfold getattr. eapply getattr_index_set_index.
      fold (getattr _index st1 cls). by rewrite Hi1. }
    destruct (register_numindex s st2) as [r3 st3] eqn:Hrn.
    exists (match r3 with Return _ => Return s | Raise e => Raise e end), st3.
    split.
    + rewrite (Token_init_named _ _ _ _ _ _ _ _ _ _ _ Hv Hname).
      fold s. step_bind. rewrite Hlocal. step_bind. rewrite Hri.
      unfold mbind, M_bind, bind. rewrite Hrn. by destruct r3.
    + by rewrite (register_numindex_index _ _ _ _ Hrn).
Qed.

(** A token that went into the string index is the one that [byval]
    returns for its name, whether or not its construction then raised on
    the int index. *)
Lemma Token_byval_after_init
    cls sv iv fv dv lv val st v st0 name owner outer iowner index r st' b :
  resolve_val sv iv fv dv lv val st = (Return v, st0) ->
  strval v = Some name ->
  getattr _register st cls = Some (owner, outer) ->
  (forall register,
     OrderedDict.get outer cls = Some register ->
     OrderedDict.get register name = None) ->
  getattr _index st cls = Some (iowner, index) ->
  OrderedDict.get index name = None ->
  Token_init cls sv iv fv dv lv val st = (r, st') ->
  Token_byval cls name b st' = (Return (Some (mkToken cls v)), st').
Proof.
  intros Hv Hname Ho Hfresh Hi Hget Hinit.
  pose proof (Token_init_index cls sv iv fv dv lv val st v st0 name owner
                outer iowner index Hv Hname Ho Hfresh Hi) as HT.
  rewrite Hget in HT. destruct HT as (r' & st'' & Heq & Hi').
  rewrite Hinit in Heq. injection Heq as <- <-.
  unfold Token_byval. unfold_M. rewrite Hi'.
  by rewrite <- (set_fresh _ _ _ Hget), get_set_eq.
Qed.

(** Lines 155-161 within [Token.__init__], reached when the checks before
    them pass: the int value, present or not, is checked against the int
    index seen from the class and the token inserted under it when new. *)
Lemma Token_init_numindex
    cls sv iv fv dv lv val st v st0 name owner outer nowner numindex :
  resolve_val sv iv fv dv lv val st = (Return v, st0) ->
  strval v = Some name ->
  getattr _register st cls = Some (owner, outer) ->
  (forall register,
     OrderedDict.get outer cls = Some register ->
     OrderedDict.get register name = None) ->
  (forall iowner index,
     getattr _index st cls = Some (iowner, index) ->
     OrderedDict.get index name = None) ->
  getattr _numindex st cls = Some (nowner, numindex) ->
  match OrderedDict.get numindex (intval v) with
  | Some existing =>
      exists st',
        Token_init cls sv iv fv dv lv val st
        = (Raise (RuntimeError MSG_SEGMENT
                    [AInt (intval v); ATok (mkToken cls v); ATok existing]),
           st')
        /\ getattr _numindex st' cls = Some (nowner, numindex)
  | None =>
      exists st',
        Token_init cls sv iv fv dv lv val st = (Return (mkToken cls v), st')
        /\ getattr _numindex st' cls
           = Some (nowner, (numindex ++ [(intval v, mkToken cls v)])%list)
  end.
Proof.
  intros Hv Hname Ho Hfresh Hifresh Hn.
  pose proof (resolve_val_attrs _ _ _ _ _ _ _ _ _ Hv) as Hattrs.
  set (s := mkToken cls v).
  destruct (register_local_fresh_indexes s name st st0 owner outer
              Hattrs Ho Hfresh) as (st1 & Hlocal & Hi1 & Hn1).
  assert (exists st2,
            register_index s name st1 = (Return tt, st2)
            /\ getattr _numindex st2 cls = Some (nowner, numindex))
    as (st2 & Hri & Hn2).
  { destruct (getattr _index st cls) as [[iowner index]|] eqn:Hi.
    - erewrite register_index_fresh; [|by rewrite Hi1|by eapply Hifresh].
      eexists. split; [done|].
      by rewrite getattr_numindex_set_index, Hn1.
    - rewrite register_index_absent by (by rewrite Hi1).
      eexists. split; [done|]. by rewrite Hn1. }
  change (intval v) with (Token_int s).
  destruct (OrderedDict.get numindex (Token_int s)) as [existing|] eqn:Hget;
    eexists;
    rewrite (Token_init_named _ _ _ _ _ _ _ _ _ _ _ Hv Hname);
    fold s; step_bind; rewrite Hlocal; step_bind; rewrite Hri; step_bind.
  - erewrite register_numindex_duplicate; [|done|done]. by split.
  - erewrite register_numindex_fresh; [|done|done].
    split; [done|]. rewrite (set_fresh _ _ _ Hget).
    unfold getattr. eapply getattr_numindex_set_numindex. exact Hn2.
Qed.

(** ** The int index and tokens without an int value *)

(** C5, as the claim has it, fails: [A = R("A")], a token without an int
    value, is inserted into the int index of [R] under the key [None], and
    [R("B")], again without an int value, raises on the int index. *)
Lemma absent_int_value_is_indexed :
  getattr _numindex (run [Makeroot class_R true true] initial_state) class_R
  = Some (class_R, [])
  /\ getattr _numindex numbered_state class_R
     = Some (class_R, [(None, token_A)])
  /\ Token_int token_A = None
  /\ (Token_init class_R (Some "B") None VNone VNone VNone None
        numbered_state).1
     = Raise (RuntimeError MSG_SEGMENT
                [AInt None; ATok (mkToken class_R value_B); ATok token_A]).
Proof. repeat split; by vm_compute. Qed.

(** C5, amended: when an int index is seen from the class, every token
    that passes the checks on the register and on the string index is
    checked against the int index under its int value, present or absent,
    and inserted under it when the key is new; a second token without an
    int value therefore raises. *)
Theorem int_index_keyed_by_any_int_value
    cls sv iv fv dv lv val st v st0 name owner outer nowner numindex :
  resolve_val sv iv fv dv lv val st = (Return v, st0) ->
  strval v = Some name ->
  getattr _register st cls = Some (owner, outer) ->
  (forall register,
     OrderedDict.get outer cls = Some register ->
     OrderedDict.get register name = None) ->
  (forall iowner index,
     getattr _index st cls = Some (iowner, index) ->
     OrderedDict.get index name = None) ->
  getattr _numindex st cls = Some (nowner, numindex) ->
  match OrderedDict.get numindex (intval v) with
  | Some existing =>
      exists st',
        Token_init cls sv iv fv dv lv val st
        = (Raise (RuntimeError MSG_SEGMENT
                    [AInt (intval v); ATok (mkToken cls v); ATok existing]),
           st')
        /\ getattr _numindex st' cls = Some (nowner, numindex)
  | None =>
      exists st',
        Token_init cls sv iv fv dv lv val st = (Return (mkToken cls v), st')
        /\ getattr _numindex st' cls
           = Some (nowner, (numindex ++ [(intval v, mkToken cls v)])%list)
  end.
Proof. apply Token_init_numindex. Qed.

Lemma numbered_state_register :
  getattr _register numbered_state class_R
  = Some (class_R, [(class_R, [("A", token_A)])]).
Proof. by vm_compute. Qed.

Lemma numbered_state_index :
  getattr _index numbered_state class_R = Some (class_R, [("A", token_A)]).
Proof. by vm_compute. Qed.

Lemma numbered_state_numindex :
  getattr _numindex numbered_state class_R
  = Some (class_R, [(None, token_A)]).
Proof. by vm_compute. Qed.

Lemma int_index_keyed_by_any_int_value_witness :
  exists st',
    Token_init class_R (Some "B") None VNone VNone VNone None numbered_state
    = (Raise (RuntimeError MSG_SEGMENT
                [AInt None; ATok (mkToken class_R value_B); ATok token_A]),
       st')
    /\ getattr _numindex st' class_R = Some (class_R, [(None, token_A)]).
Proof.
  assert (forall register,
            OrderedDict.get [(class_R, [("A", token_A)])] class_R
            = Some register ->
            OrderedDict.get register "B" = None) as Hfresh.
  { intros register Hr. vm_compute in Hr. injection Hr as <-. reflexivity. }
  assert (forall iowner index,
            getattr _index numbered_state class_R = Some (iowner, index) ->
            OrderedDict.get index "B" = None) as Hifresh.
  { intros iowner index Hi. rewrite numbered_state_index in Hi.
    injection Hi as <- <-. reflexivity. }
  exact (int_index_keyed_by_any_int_value
           class_R (Some "B") None VNone VNone VNone None
           numbered_state value_B _ "B" class_R _ class_R _
           eq_refl eq_refl numbered_state_register Hfresh Hifresh
           numbered_state_numindex).
Defined.

(** ** makeroot with an index disabled *)

Lemma makeroot_state R gi gni st :
  (Token_makeroot R gi gni st).2
  = update_attrs st R (fun a =>
      mkClassAttrs (Some OrderedDict.empty)
        (if gi then Some OrderedDict.empty else _index a)
        (if gni then Some OrderedDict.empty else _numindex a)).
Proof. done. Qed.

Lemma getattr_own {A} (attr : ClassAttrs -> option A) st c a :
  attr (attrs st c) = Some a -> getattr attr st c = Some (c, a).
Proof.
  intros Ha. unfold getattr. destruct (mro_head c) as [l ->]. simpl.
  by rewrite Ha.
Qed.

Lemma getattr_issubclass {A} (attr : ClassAttrs -> option A) st c owner a :
  getattr attr st c = Some (owner, a) -> issubclass c owner = true.
Proof.
  intros [Hin _]%lookup_mro_owner. by apply bool_decide_eq_true.
Qed.

(** C9: [R.makeroot] with an index disabled, on a class [R] without that
    index of its own inside a root [E] that has it.  [R] gets a new
    register and no index of the disabled kind; a class [d] below [R] that
    saw the index of [E] still sees it, and the tokens of [d], which are
    tokens of [R], are checked against that index and inserted into it.
    The first half is the int index, the second the string index. *)
Theorem nested_root_shares_disabled_index (R d : pyclass) (st : State) :
  issubclass d R = true ->
  (forall E gi numindex,
     _numindex (attrs st R) = None ->
     getattr _numindex st R = Some (E, numindex) ->
     getattr _numindex st d = Some (E, numindex) ->
     let st1 := (Token_makeroot R gi false st).2 in
     issubclass R E = true /\ E <> R
     /\ getattr _register st1 R = Some (R, OrderedDict.empty)
     /\ _numindex (attrs st1 R) = None
     /\ getattr _numindex st1 d = Some (E, numindex)
     /\ forall sv iv fv dv lv val v st0 name owner outer,
          resolve_val sv iv fv dv lv val st1 = (Return v, st0) ->
          strval v = Some name ->
          getattr _register st1 d = Some (owner, outer) ->
          (forall register,
             OrderedDict.get outer d = Some register ->
             OrderedDict.get register name = None) ->
          (forall iowner index,
             getattr _index st1 d = Some (iowner, index) ->
             OrderedDict.get index name = None) ->
          Token_includes R (mkToken d v) = true
          /\ match OrderedDict.get numindex (intval v) with
             | Some existing =>
                 exists st',
                   Token_init d sv iv fv dv lv val st1
                   = (Raise (RuntimeError MSG_SEGMENT
                               [AInt (intval v); ATok (mkToken d v);
                                ATok existing]), st')
             | None =>
                 exists st',
                   Token_init d sv iv fv dv lv val st1
                   = (Return (mkToken d v), st')
                   /\ getattr _numindex st' E
                      = Some (E, (numindex
                                  ++ [(intval v, mkToken d v)])%list)
             end)
  /\ (forall E gni index,
        _index (attrs st R) = None ->
        getattr _index st R = Some (E, index) ->
        getattr _index st d = Some (E, index) ->
        let st1 := (Token_makeroot R false gni st).2 in
        issubclass R E = true /\ E <> R
        /\ getattr _register st1 R = Some (R, OrderedDict.empty)
        /\ _index (attrs st1 R) = None
        /\ getattr _index st1 d = Some (E, index)
        /\ forall sv iv fv dv lv val v st0 name owner outer,
             resolve_val sv iv fv dv lv val st1 = (Return v, st0) ->
             strval v = Some name ->
             getattr _register st1 d = Some (owner, outer) ->
             (forall register,
                OrderedDict.get outer d = Some register ->
                OrderedDict.get register name = None) ->
             Token_includes R (mkToken d v) = true
             /\ match OrderedDict.get index name with
                | Some existing =>
                    exists st',
                      Token_init d sv iv fv dv lv val st1
                      = (Raise (RuntimeError MSG_SEGMENT
                                  [AStr (Some name); ATok (mkToken d v);
                                   ATok existing]), st')
                | None =>
                    exists r st',
                      Token_init d sv iv fv dv lv val st1 = (r, st')
                      /\ getattr _index st' E
                         = Some (E, (index ++ [(name, mkToken d v)])%list)
                end).
Proof.
  intros Hsub. split.
  - intros E gi numindex Hown HR Hd st1. subst st1. rewrite makeroot_state.
    set (st1 := update_attrs st R _).
    assert (forall c, getattr _numindex st1 c = getattr _numindex st c) as Hf
      by (intros c; by apply lookup_mro_frame).
    split; [by eapply getattr_issubclass|].
    split.
    { intros ->. apply lookup_mro_owner in HR as [_ HR]. congruence. }
    split.
    { apply getattr_own. unfold st1, update_attrs; simpl.
      by rewrite decide_True. }
    split.
    { unfold st1, update_attrs; simpl. by rewrite decide_True. }
    split; [by rewrite Hf|].
    intros sv iv fv dv lv val v st0 name owner outer Hv Hname Ho Hfresh Hifresh.
    split; [exact Hsub|].
    pose proof (Token_init_numindex d sv iv fv dv lv val st1 v st0 name
                  owner outer E numindex Hv Hname Ho Hfresh Hifresh) as HT.
    rewrite Hf in HT. specialize (HT Hd).
    destruct (OrderedDict.get numindex (intval v)).
    + destruct HT as (st' & HT & _). by exists st'.
    + destruct HT as (st' & HT & Hn). exists st'. split; [done|].
      by apply getattr_owner in Hn as [_ ?].
  - intros E gni index Hown HR Hd st1. subst st1. rewrite makeroot_state.
    set (st1 := update_attrs st R _).
    assert (forall c, getattr _index st1 c = getattr _index st c) as Hf
      by (intros c; by apply lookup_mro_frame).
    split; [by eapply getattr_issubclass|].
    split.
    { intros ->. apply lookup_mro_owner in HR as [_ HR]. congruence. }
    split.
    { apply getattr_own. unfold st1, update_attrs; simpl.
      by rewrite decide_True. }
    split.
    { unfold st1, update_attrs; simpl. by rewrite decide_True. }
    split; [by rewrite Hf|].
    intros sv iv fv dv lv val v st0 name owner outer Hv Hname Ho Hfresh.
    split; [exact Hsub|].
    pose proof (Token_init_index d sv iv fv dv lv val st1 v st0 name
                  owner outer E index Hv Hname Ho Hfresh) as HT.
    rewrite Hf in HT. specialize (HT Hd).
    destruct (OrderedDict.get index name).
    + destruct HT as (st' & HT & _). by exists st'.
    + destruct HT as (r & st' & HT & Hn). exists r, st'. split; [done|].
      by apply getattr_owner in Hn as [_ ?].
Qed.

Lemma nested_root_shares_disabled_index_witness :
  exists st',
    Token_init Existence (Some "ZZ") (Some 0) VNone VNone VNone None
      nested_state
    = (Raise (RuntimeError MSG_SEGMENT
                [AInt (Some 0); ATok (mkToken Existence value_ZZ);
                 ATok first_EQ]), st').
Proof.
  destruct (nested_root_shares_disabled_index Existence Existence
              comparison_state (issubclass_refl Existence)) as [Hint _].
  assert (_numindex (attrs comparison_state Existence) = None) as Hown
    by (vm_compute; reflexivity).
  pose proof (Hint Comparison true comparison_numindex Hown
                (comparison_state_numindex Existence (or_intror eq_refl))
                (comparison_state_numindex Existence (or_intror eq_refl)))
    as (_ & _ & Hreg & _ & _ & Hc).
  fold nested_state in Hreg, Hc.
  assert (forall register,
            OrderedDict.get (@OrderedDict.empty pyclass
                               (OrderedDict string Token)) Existence
            = Some register ->
            OrderedDict.get register "ZZ" = None) as Hfresh
    by (intros register Hr; vm_compute in Hr; discriminate Hr).
  assert (forall iowner index,
            getattr _index nested_state Existence = Some (iowner, index) ->
            OrderedDict.get index "ZZ" = None) as Hifresh.
  { intros iowner index Hi. vm_compute in Hi. injection Hi as <- <-.
    reflexivity. }
  pose proof (Hc (Some "ZZ") (Some 0) VNone VNone VNone None value_ZZ _ "ZZ"
                Existence OrderedDict.empty eq_refl eq_refl Hreg Hfresh
                Hifresh) as (_ & HT).
  exact HT.
Defined.

(** ** What a run preserves *)

Section preserves.
Context (Rel : State -> State -> Prop) `{!PreOrder Rel}.

Lemma preserves_ret {A} (a : A) : preserves Rel (mret a).
Proof. intros st r st' [= _ <-]. reflexivity. Qed.

Lemma preserves_raise {A} e : preserves Rel (@raise A e).
Proof. intros st r st' [= _ <-]. reflexivity. Qed.

Lemma preserves_bind {A B} (m : M A) (k : A -> M B) :
  preserves Rel m -> (forall a, preserves Rel (k a)) ->
  preserves Rel (m ≫= k).
Proof.
  intros Hm Hk st r st'. unfold mbind, M_bind, bind.
  destruct (m st) as [[a|e] st1] eqn:E.
  - intros Hka. etrans; [by eapply Hm | by eapply Hk].
  - intros [= _ <-]. by eapply Hm.
Qed.

Lemma preserves_modify f :
  (forall st, Rel st (f st)) -> preserves Rel (modify f).
Proof. intros Hf st r st' [= _ <-]. apply Hf. Qed.

Lemma preserves_read_attr {A} (attr : ClassAttrs -> option A) name cls :
  preserves Rel (read_attr attr name cls).
Proof.
  intros st r st'. unfold read_attr.
  destruct (getattr attr st cls); intros [= _ <-]; reflexivity.
Qed.
End preserves.

#[global] Instance same_indexes_defined_preorder :
  PreOrder same_indexes_defined.
Proof.
  split.
  - intros st c. tauto.
  - intros st1 st2 st3 H12 H23 c. destruct (H12 c), (H23 c). split; tauto.
Qed.

Lemma same_indexes_defined_update st o f :
  (_index (f (attrs st o)) = None <-> _index (attrs st o) = None) ->
  (_numindex (f (attrs st o)) = None <-> _numindex (attrs st o) = None) ->
  same_indexes_defined st (update_attrs st o f).
Proof.
  intros Hi Hn c. unfold update_attrs; simpl.
  destruct (decide (c = o)) as [->|]; [done | tauto].
Qed.

Lemma register_local_indexes_defined s name :
  preserves same_indexes_defined (register_local s name).
Proof.
  unfold register_local.
  apply preserves_bind; [tc_solve | apply preserves_read_attr; tc_solve|].
  intros [owner outer]. apply preserves_bind; [tc_solve| |].
  - destruct (OrderedDict.get outer (__class__ s)).
    + apply preserves_ret; tc_solve.
    + apply preserves_bind; [tc_solve| |intros; apply preserves_ret; tc_solve].
      apply preserves_modify. intros st. by apply same_indexes_defined_update.
  - intros [register outer']. destruct (OrderedDict.get register name).
    + apply preserves_raise; tc_solve.
    + apply preserves_modify. intros st. by apply same_indexes_defined_update.
Qed.

Lemma register_index_indexes_defined s name :
  preserves same_indexes_defined (register_index s name).
Proof.
  intros st r st'. unfold register_index.
  destruct (getattr _index st (__class__ s)) as [[owner index]|] eqn:Hi;
    [destruct (OrderedDict.get index name)|]; intros [= _ <-];
    try reflexivity.
  apply lookup_mro_owner in Hi as [_ Hi].
  apply same_indexes_defined_update; simpl; [|done]. by rewrite Hi.
Qed.

Lemma register_numindex_indexes_defined s :
  preserves same_indexes_defined (register_numindex s).
Proof.
  intros st r st'. unfold register_numindex.
  destruct (getattr _numindex st (__class__ s)) as [[owner index]|] eqn:Hi;
    [destruct (OrderedDict.get index (Token_int s))|]; intros [= _ <-];
    try reflexivity.
  apply lookup_mro_owner in Hi as [_ Hi].
  apply same_indexes_defined_update; simpl; [done|]. by rewrite Hi.
Qed.

Lemma resolve_val_indexes_defined sv iv fv dv lv val :
  preserves same_indexes_defined (resolve_val sv iv fv dv lv val).
Proof.
  intros st r st' Hv c. by rewrite (resolve_val_attrs _ _ _ _ _ _ _ _ _ Hv).
Qed.

(** No construction gives a class an index, or takes one away. *)
Lemma Token_init_indexes_defined cls sv iv fv dv lv val :
  preserves same_indexes_defined (Token_init cls sv iv fv dv lv val).
Proof.
  unfold Token_init.
  apply preserves_bind; [tc_solve | apply resolve_val_indexes_defined|].
  intros v. destruct (Token_str _); [|apply preserves_raise; tc_solve].
  apply preserves_bind;
    [tc_solve | apply register_local_indexes_defined | intros _].
  apply preserves_bind;
    [tc_solve | apply register_index_indexes_defined | intros _].
  apply preserves_bind;
    [tc_solve | apply register_numindex_indexes_defined | intros _].
  apply preserves_ret; tc_solve.
Qed.

(** ** Lookup without an index *)

Lemma exec_no_index cls c st :
  enables_index cls c = false ->
  (forall c', c' ∈ mro cls -> _index (attrs st c') = None) ->
  forall c', c' ∈ mro cls -> _index (attrs (exec c st) c') = None.
Proof.
  intros Hc Hst c' Hin. destruct c as [d sv iv fv dv lv val | r gi gni]; simpl.
  - destruct (Token_init d sv iv fv dv lv val st) as [res st'] eqn:E.
    apply Token_init_indexes_defined in E. apply E. by apply Hst.
  - simpl in Hc. unfold update_attrs; simpl.
    destruct (decide (c' = r)) as [->|]; [|by apply Hst].
    simpl. apply andb_false_iff in Hc as [-> | Hc]; [by apply Hst|].
    apply bool_decide_eq_false in Hc. done.
Qed.

Lemma exec_no_numindex cls c st :
  enables_numindex cls c = false ->
  (forall c', c' ∈ mro cls -> _numindex (attrs st c') = None) ->
  forall c', c' ∈ mro cls -> _numindex (attrs (exec c st) c') = None.
Proof.
  intros Hc Hst c' Hin. destruct c as [d sv iv fv dv lv val | r gi gni]; simpl.
  - destruct (Token_init d sv iv fv dv lv val st) as [res st'] eqn:E.
    apply Token_init_indexes_defined in E. apply E. by apply Hst.
  - simpl in Hc. unfold update_attrs; simpl.
    destruct (decide (c' = r)) as [->|]; [|by apply Hst].
    simpl. apply andb_false_iff in Hc as [-> | Hc]; [by apply Hst|].
    apply bool_decide_eq_false in Hc. done.
Qed.

Lemma run_cons c prog st : run (c :: prog) st = run prog (exec c st).
Proof. done. Qed.

Lemma run_no_index cls prog st :
  Forall (fun c => enables_index cls c = false) prog ->
  (forall c', c' ∈ mro cls -> _index (attrs st c') = None) ->
  getattr _index (run prog st) cls = None.
Proof.
  intros Hprog. revert st.
  induction Hprog as [|c prog Hc _ IH]; intros st Hst.
  - by apply lookup_mro_None.
  - rewrite run_cons. apply IH. by apply exec_no_index.
Qed.

Lemma run_no_numindex cls prog st :
  Forall (fun c => enables_numindex cls c = false) prog ->
  (forall c', c' ∈ mro cls -> _numindex (attrs st c') = None) ->
  getattr _numindex (run prog st) cls = None.
Proof.
  intros Hprog. revert st.
  induction Hprog as [|c prog Hc _ IH]; intros st Hst.
  - by apply lookup_mro_None.
  - rewrite run_cons. apply IH. by apply exec_no_numindex.
Qed.

Lemma initial_state_no_index c :
  _index (attrs initial_state c) = None
  /\ _numindex (attrs initial_state c) = None.
Proof. by destruct c. Qed.

(** C7: after any module in which [makeroot] was never called with the
    string index enabled on [cls] or on a class it inherits from,
    [cls.byval] raises [AttributeError], whatever the key and the flag;
    likewise [cls.bynum] when no such call enabled the int index.  This is
    not the [KeyError] of a missing key. *)
Theorem lookup_without_index_is_AttributeError (prog : list stmt)
    (cls : pyclass) :
  (Forall (fun c => enables_index cls c = false) prog ->
   forall key noneIfMissing,
     Token_byval cls key noneIfMissing (run prog initial_state)
     = (Raise (AttributeError "_index"), run prog initial_state))
  /\ (Forall (fun c => enables_numindex cls c = false) prog ->
      forall key noneIfMissing,
        Token_bynum cls key noneIfMissing (run prog initial_state)
        = (Raise (AttributeError "_numindex"), run prog initial_state))
  /\ (forall attr msg args, AttributeError attr <> KeyError msg args).
Proof.
  split; [|split; [|done]].
  - intros Hprog key b. unfold Token_byval. unfold_M.
    rewrite (run_no_index cls prog initial_state Hprog); [done|].
    intros c _. apply initial_state_no_index.
  - intros Hprog key b. unfold Token_bynum. unfold_M.
    rewrite (run_no_numindex cls prog initial_state Hprog); [done|].
    intros c _. apply initial_state_no_index.
Qed.

Lemma lookup_without_index_is_AttributeError_witness :
  Token_byval Existence "EX" false (run unindexed_module initial_state)
  = (Raise (AttributeError "_index"), run unindexed_module initial_state)
  /\ Token_bynum Existence (Some 1) true (run unindexed_module initial_state)
     = (Raise (AttributeError "_numindex"),
        run unindexed_module initial_state).
Proof.
  destruct (lookup_without_index_is_AttributeError unindexed_module Existence)
    as (Hs & Hn & _).
  split.
  - apply Hs. repeat constructor.
  - apply Hn. repeat constructor.
Defined.

(** ** The order of enumeration *)

Section history_facts.
Implicit Types (log : list Token) (t : Token) (c : pyclass).

Lemma classes_by_first_token_snoc log t :
  classes_by_first_token (log ++ [t])
  = if decide (__class__ t ∈ classes_by_first_token log)
    then classes_by_first_token log
    else (classes_by_first_token log ++ [__class__ t])%list.
Proof. unfold classes_by_first_token. by rewrite foldl_snoc. Qed.

Lemma classes_by_first_token_NoDup log :
  NoDup (classes_by_first_token log).
Proof.
  induction log as [|t log IH] using rev_ind; [constructor|].
  rewrite classes_by_first_token_snoc. case_decide; [done|].
  apply NoDup_app. split; [done|]. split; [|apply NoDup_singleton].
  intros c Hc ->%list_elem_of_singleton. done.
Qed.

Lemma tokens_of_class_snoc c log t :
  tokens_of_class c (log ++ [t])
  = (tokens_of_class c log ++ if decide (__class__ t = c) then [t] else [])%list.
Proof.
  unfold tokens_of_class. rewrite filter_app. by f_equal.
Qed.

Lemma classes_by_first_token_elem_of c log :
  c ∈ classes_by_first_token log <-> exists t, t ∈ log /\ __class__ t = c.
Proof.
  induction log as [|t log IH] using rev_ind.
  - split; [by intros ?%elem_of_nil | by intros (? & ?%elem_of_nil & _)].
  - rewrite classes_by_first_token_snoc.
    assert (c ∈ (classes_by_first_token log ++ [__class__ t])%list
            <-> exists t', t' ∈ (log ++ [t])%list /\ __class__ t' = c) as Hsnoc.
    { rewrite elem_of_app, IH, list_elem_of_singleton. split.
      - intros [(t' & Hin & Hc) | ->].
        + exists t'. rewrite elem_of_app. by auto.
        + exists t. rewrite elem_of_app, list_elem_of_singleton. by auto.
      - intros (t' & [Hin | ->%list_elem_of_singleton]%elem_of_app & Hc);
          [left; by exists t' | by right]. }
    case_decide as Hin; [|done].
    rewrite <- Hsnoc, elem_of_app, list_elem_of_singleton.
    split; [by left | by intros [? | ->]].
Qed.

Lemma tokens_of_class_unseen c log :
  c ∉ classes_by_first_token log -> tokens_of_class c log = [].
Proof.
  intros Hc. unfold tokens_of_class.
  destruct (filter _ log) as [|t l] eqn:E; [done|]. exfalso. apply Hc.
  assert (t ∈ filter (fun t => __class__ t = c) log) as Hin
    by (rewrite E; left).
  apply list_elem_of_filter in Hin as [Ht Hin].
  apply classes_by_first_token_elem_of. by exists t.
Qed.
End history_facts.

(** An [OrderedDict] whose values are a function of the keys. *)
Section tabulated.
Context {K V : Type} `{EqDecision K}.
Implicit Types (f g : K -> V) (l : list K) (k : K).

Lemma fmap_ext_elem_of f g l :
  (forall k, k ∈ l -> f k = g k) ->
  (fun k => (k, f k)) <$> l = (fun k => (k, g k)) <$> l.
Proof.
  intros Hfg. apply list_fmap_ext. intros i k Hk.
  by rewrite (Hfg k) by (by eapply list_elem_of_lookup_2).
Qed.

Lemma get_tabulated f l k :
  OrderedDict.get ((fun k => (k, f k)) <$> l) k
  = if decide (k ∈ l) then Some (f k) else None.
Proof.
  induction l as [|k' l IH]; rewrite ?fmap_cons; cbn [OrderedDict.get].
  - by rewrite decide_False by apply not_elem_of_nil.
  - destruct (decide (k' = k)) as [->|Hne].
    + by rewrite decide_True by left.
    + rewrite IH. destruct (decide (k ∈ l)) as [Hin|Hin].
      * by rewrite decide_True by (by right).
      * rewrite decide_False; [done|].
        by intros [->|?]%elem_of_cons.
Qed.

Lemma set_tabulated f g l k :
  NoDup l -> k ∈ l -> (forall k', k' ≠ k -> g k' = f k') ->
  OrderedDict.set ((fun k => (k, f k)) <$> l) k (g k)
  = (fun k => (k, g k)) <$> l.
Proof.
  intros Hnd Hin Hfg. induction l as [|k' l IH]; simpl.
  - by apply elem_of_nil in Hin.
  - apply NoDup_cons in Hnd as [Hk' Hnd].
    destruct (decide (k' = k)) as [->|Hne].
    + f_equal. apply fmap_ext_elem_of. intros k' Hk.
      symmetry. apply Hfg. by intros ->.
    + rewrite (Hfg k') by done. f_equal. apply IH; [done|].
      by apply elem_of_cons in Hin as [->|?].
Qed.

Lemma set_set (d : OrderedDict K V) k v v' :
  OrderedDict.set (OrderedDict.set d k v) k v' = OrderedDict.set d k v'.
Proof.
  induction d as [|[k' w] d IH]; simpl.
  - by rewrite decide_True.
  - destruct (decide (k' = k)) as [->|Hne]; simpl.
    + by rewrite decide_True.
    + by rewrite decide_False, IH.
Qed.
End tabulated.

(** Storing a token with a new name in the register of a history gives the
    register of the history with that token added. *)
Lemma Register_insert_register_of (log : list Token) (t : Token) name :
  Token_str t = Some name ->
  (forall register,
     OrderedDict.get (register_of log) (__class__ t) = Some register ->
     OrderedDict.get register name = None) ->
  Register_insert (register_of log) t name = register_of (log ++ [t]).
Proof.
  intros Hname Hfresh.
  assert (token_name t = name) as Hkey by (unfold token_name; by rewrite Hname).
  assert (entries (__class__ t) (log ++ [t])
          = (entries (__class__ t) log ++ [(name, t)])%list) as Hsnoc.
  { unfold entries. rewrite tokens_of_class_snoc, decide_True by done.
    by rewrite fmap_snoc, Hkey. }
  assert (forall c, c ≠ __class__ t -> entries c (log ++ [t]) = entries c log)
    as Hother.
  { intros c Hc. unfold entries.
    rewrite tokens_of_class_snoc, decide_False by done.
    by rewrite app_nil_r. }
  unfold Register_insert, register_of in *.
  rewrite classes_by_first_token_snoc. rewrite get_tabulated in *.
  destruct (decide (__class__ t ∈ classes_by_first_token log)) as [Hin|Hin].
  - rewrite (set_fresh _ _ _ (Hfresh _ eq_refl)), <- Hsnoc.
    apply (set_tabulated (fun c => entries c log)
             (fun c => entries c (log ++ [t]))); [|done|done].
    apply classes_by_first_token_NoDup.
  - rewrite set_set, fmap_snoc, Hsnoc.
    assert (entries (__class__ t) log = []) as ->
      by (unfold entries; by rewrite tokens_of_class_unseen).
    rewrite set_fresh
      by (rewrite get_tabulated; by rewrite decide_False).
    f_equal. apply fmap_ext_elem_of. intros c Hc. symmetry. apply Hother.
    by intros ->.
Qed.

(** The generator of [tokens] on the register of a history. *)
Lemma registered_tokens_register_of cls (log : list Token) :
  registered_tokens cls (register_of log) = tokens_spec cls log.
Proof.
  unfold registered_tokens, registered_subclasses, tokens_spec.
  assert (OrderedDict.keys (register_of log) = classes_by_first_token log)
    as ->.
  { unfold OrderedDict.keys, register_of.
    rewrite <- list_fmap_compose. apply list_fmap_id. }
  rewrite (list_filter_iff _ (fun c => issubclass c cls)).
  - apply Forall_bind_ext, Forall_forall. intros c [_ Hc]%list_elem_of_filter.
    unfold register_of. rewrite get_tabulated, decide_True by done.
    unfold OrderedDict.items, entries.
    rewrite <- list_fmap_compose. apply list_fmap_id.
  - intros c. unfold class_eq. split; [|by intros ->%Is_true_true_1].
    intros [?|Heq%bool_decide_unpack]%orb_True; [done|].
    rewrite Heq, issubclass_refl. done.
Qed.

(** ** Registers along a run *)

#[global] Instance same_registers_preorder : PreOrder same_registers.
Proof.
  split.
  - by intros st c.
  - intros st1 st2 st3 H12 H23 c. by rewrite H23, H12.
Qed.

Lemma register_index_same_registers s name :
  preserves same_registers (register_index s name).
Proof.
  intros st r st'. unfold register_index.
  destruct (getattr _index st (__class__ s)) as [[owner index]|];
    [destruct (OrderedDict.get index name)|]; intros [= _ <-];
    try reflexivity.
  intros c. unfold set_index, update_attrs; simpl. by case_decide; subst.
Qed.

Lemma register_numindex_same_registers s :
  preserves same_registers (register_numindex s).
Proof.
  intros st r st'. unfold register_numindex.
  destruct (getattr _numindex st (__class__ s)) as [[owner index]|];
    [destruct (OrderedDict.get index (Token_int s))|]; intros [= _ <-];
    try reflexivity.
  intros c. unfold set_numindex, update_attrs; simpl. by case_decide; subst.
Qed.

Lemma indexes_same_registers s name :
  preserves same_registers
    (register_index s name;; register_numindex s;; mret s).
Proof.
  apply preserves_bind;
    [tc_solve | apply register_index_same_registers | intros _].
  apply preserves_bind;
    [tc_solve | apply register_numindex_same_registers | intros _].
  apply preserves_ret; tc_solve.
Qed.

(** What a construction does to the registers: the registration, if any,
    and nothing else. *)
Lemma exec_Construct_registers cls sv iv fv dv lv val st :
  let c := Construct cls sv iv fv dv lv val in
  match registration c st with
  | Some (owner, t) =>
      exists outer name,
        _register (attrs st owner) = Some outer
        /\ Token_str t = Some name
        /\ (forall register,
              OrderedDict.get outer (__class__ t) = Some register ->
              OrderedDict.get register name = None)
        /\ forall o,
             _register (attrs (exec c st) o)
             = if decide (o = owner) then Some (Register_insert outer t name)
               else _register (attrs st o)
  | None => forall o, _register (attrs (exec c st) o) = _register (attrs st o)
  end.
Proof.
  intros c. subst c. unfold registration, exec.
  destruct (resolve_val_returns sv iv fv dv lv val st) as (v & st0 & Hv).
  pose proof (resolve_val_attrs _ _ _ _ _ _ _ _ _ Hv) as Hattrs.
  rewrite Hv. destruct (strval v) as [name|] eqn:Hname.
  2:{ unfold Token_init. step_bind. rewrite Hv. unfold Token_str; simpl.
      rewrite Hname. simpl. intros o. by rewrite Hattrs. }
  rewrite (Token_init_named _ _ _ _ _ _ _ _ _ _ _ Hv Hname).
  set (s := mkToken cls v).
  destruct (getattr _register st cls) as [[owner outer]|] eqn:Ho.
  2:{ step_bind. unfold register_local. step_bind. unfold read_attr.
      change (__class__ s) with cls.
      rewrite (getattr_same_attrs _ _ _ _ Hattrs), Ho. simpl.
      intros o. by rewrite Hattrs. }
  assert (getattr _register st0 (__class__ s) = Some (owner, outer)) as Ho0
    by (by rewrite (getattr_same_attrs _ _ _ _ Hattrs)).
  destruct (OrderedDict.get outer cls) as [register|] eqn:Hr; simpl.
  - destruct (OrderedDict.get register name) as [existing|] eqn:Hn.
    + step_bind. erewrite register_local_duplicate; [|done|done|done].
      simpl. intros o. by rewrite Hattrs.
    + destruct (register_local_fresh s name st0 owner outer Ho0)
        as (st1 & Hlocal & _ & Hsame).
      { simpl. intros register' Hr'. congruence. }
      exists outer, name. apply lookup_mro_owner in Ho as [_ Ho].
      split; [done|]. split; [done|]. split.
      { simpl. intros register' Hr'. congruence. }
      intros o. step_bind. rewrite Hlocal.
      destruct ((register_index s name;; register_numindex s;; mret s) st1)
        as [r st'] eqn:E.
      apply indexes_same_registers in E. simpl. rewrite E, Hsame.
      unfold set_register, update_attrs; simpl.
      case_decide; [done | by rewrite Hattrs].
  - destruct (register_local_fresh s name st0 owner outer Ho0)
      as (st1 & Hlocal & _ & Hsame).
    { simpl. intros register' Hr'. congruence. }
    exists outer, name. apply lookup_mro_owner in Ho as [_ Ho].
    split; [done|]. split; [done|]. split.
    { simpl. intros register' Hr'. congruence. }
    intros o. step_bind. rewrite Hlocal.
    destruct ((register_index s name;; register_numindex s;; mret s) st1)
      as [r st'] eqn:E.
    apply indexes_same_registers in E. simpl. rewrite E, Hsame.
    unfold set_register, update_attrs; simpl.
    case_decide; [done | by rewrite Hattrs].
Qed.

Lemma initial_registers_follow : registers_follow initial_state no_history.
Proof. intros [|] outer; simpl; by intros [= <-]. Qed.

Lemma exec_registers_follow c st h :
  registers_follow st h -> registers_follow (exec c st) (record c st h).
Proof.
  intros Hst o outer'.
  destruct c as [cls sv iv fv dv lv val | r gi gni].
  - pose proof (exec_Construct_registers cls sv iv fv dv lv val st) as Hexec.
    cbv zeta in Hexec. unfold record.
    destruct (registration _ st) as [[owner t]|].
    + destruct Hexec as (outer & name & Houter & Hname & Hfresh & Hexec).
      rewrite Hexec. apply Hst in Houter as ->.
      case_decide as Ho; [subst o | by apply Hst].
      intros [= <-]. by apply Register_insert_register_of.
    + rewrite Hexec. by apply Hst.
  - simpl. unfold update_attrs; simpl.
    case_decide as Ho; [subst o | by apply Hst].
    simpl. by intros [= <-].
Qed.

Lemma run_registers_follow prog st h :
  registers_follow st h ->
  registers_follow (run prog st) (history prog st h).
Proof.
  revert st h. induction prog as [|c prog IH]; intros st h Hst; [done|].
  rewrite run_cons. simpl. by apply IH, exec_registers_follow.
Qed.

(** A class that has a register keeps one. *)
Lemma exec_register_defined c st o :
  is_Some (_register (attrs st o)) ->
  is_Some (_register (attrs (exec c st) o)).
Proof.
  intros Ho. destruct c as [cls sv iv fv dv lv val | r gi gni].
  - pose proof (exec_Construct_registers cls sv iv fv dv lv val st) as Hexec.
    cbv zeta in Hexec. destruct (registration _ st) as [[owner t]|].
    + destruct Hexec as (outer & name & _ & _ & _ & Hexec).
      rewrite Hexec. by case_decide.
    + by rewrite Hexec.
  - simpl. unfold update_attrs; simpl. by case_decide.
Qed.

Lemma run_register_defined prog st o :
  is_Some (_register (attrs st o)) ->
  is_Some (_register (attrs (run prog st) o)).
Proof.
  revert st. induction prog as [|c prog IH]; intros st Ho; [done|].
  rewrite run_cons. by apply IH, exec_register_defined.
Qed.

Lemma mro_Token_class c : Token_class ∈ mro c.
Proof. induction c; simpl; [left | by right]. Qed.

(** [_register] is found from every class, [Token] having one from the
    start. *)
Lemma run_getattr_register prog cls :
  is_Some (getattr _register (run prog initial_state) cls).
Proof.
  destruct (getattr _ _ cls) as [oa|] eqn:E; [done|].
  pose proof (proj1 (lookup_mro_None _ _ _) E Token_class
                (mro_Token_class cls)) as Hnone.
  destruct (run_register_defined prog initial_state Token_class) as [r Hr];
    [by eexists | congruence].
Qed.

(** C8: after any module, [cls.tokens] returns the tokens of the register
    seen from [cls], grouped by class: the classes that are [cls] or
    descend from it, in the order in which each first received a token,
    and within a class the tokens in the order of their insertion.  The
    order is that of the history of the register, not of names or types;
    with [strOnly] the names are returned in the same order. *)
Theorem tokens_enumeration_order (prog : list stmt) (cls : pyclass) :
  exists owner outer,
    getattr _register (run prog initial_state) cls = Some (owner, outer)
    /\ Token_tokens cls false (run prog initial_state)
       = (Return (IToken <$> tokens_spec cls
                    (history prog initial_state no_history owner)),
          run prog initial_state)
    /\ Token_tokens cls true (run prog initial_state)
       = (Return ((fun t => IStr (Token_str t)) <$> tokens_spec cls
                    (history prog initial_state no_history owner)),
          run prog initial_state).
Proof.
  destruct (run_getattr_register prog cls) as [[owner outer] Ho].
  exists owner, outer. split; [done|].
  pose proof Ho as [_ Hown]%lookup_mro_owner.
  apply (run_registers_follow prog initial_state no_history
           initial_registers_follow) in Hown.
  unfold Token_tokens. unfold_M. rewrite Ho, Hown.
  by rewrite registered_tokens_register_of.
Qed.

Example tokens_interleaved :
  (Token_tokens Comparison true (run interleaved_module initial_state)).1
  = Return [IStr (Some "LT"); IStr (Some "EQ");
            IStr (Some "NX"); IStr (Some "EX")].
Proof. reflexivity. Qed.

Example tokens_comparison :
  (Token_tokens Comparison true comparison_state).1
  = Return [IStr (Some "EQ"); IStr (Some "LT");
            IStr (Some "EX"); IStr (Some "NX")]
  /\ (Token_tokens Existence true comparison_state).1
     = Return [IStr (Some "EX"); IStr (Some "NX")]
  /\ (Token_subclasses Comparison true comparison_state).1
     = Return [IName "Comparison"; IName "Existence"].
Proof. repeat split; reflexivity. Qed.

(** * Further properties *)

(** ** Construction without a name *)

(** X1: a construction whose value bundle has no string value raises the
    [RuntimeError] of line 132 before any registry is read: no class
    attribute changes.  The bundle is [val] when one is passed, so a
    [strval] passed next to a nameless [val] does not help. *)
Theorem nameless_token_rejected cls sv iv fv dv lv val st v st0 :
  resolve_val sv iv fv dv lv val st = (Return v, st0) ->
  strval v = None ->
  Token_init cls sv iv fv dv lv val st
  = (Raise (RuntimeError MSG_NO_STRING [AVal v]), st0)
  /\ attrs st0 = attrs st.
Proof.
  intros Hv Hname. split; [|by eapply resolve_val_attrs].
  unfold Token_init. step_bind. rewrite Hv. unfold Token_str; simpl.
  by rewrite Hname.
Qed.

Lemma nameless_token_rejected_witness :
  Token_init Comparison (Some "X") (Some 3) VNone VNone VNone
    (Some nameless_value) comparison_state
  = (Raise (RuntimeError MSG_NO_STRING [AVal nameless_value]),
     comparison_state)
  /\ attrs comparison_state = attrs comparison_state.
Proof.
  exact (nameless_token_rejected Comparison (Some "X") (Some 3) VNone VNone
           VNone (Some nameless_value) comparison_state nameless_value
           comparison_state eq_refl eq_refl).
Defined.

(** ** Lookup by int value *)

(** X2: when a class of the MRO has an int index, [bynum] returns the token
    that the index holds under the key; for a key that it does not hold it
    raises [KeyError], or returns [None] when [noneIfMissing] is true.  The
    state is left as it was. *)
Theorem Token_bynum_spec st cls owner index key :
  getattr _numindex st cls = Some (owner, index) ->
  match OrderedDict.get index key with
  | Some token =>
      forall noneIfMissing,
        Token_bynum cls key noneIfMissing st = (Return (Some token), st)
  | None =>
      Token_bynum cls key false st
      = (Raise (KeyError "token with this int value does not exist"
                  [AInt key]), st)
      /\ Token_bynum cls key true st = (Return None, st)
  end.
Proof.
  intros Hi. unfold Token_bynum. unfold_M. rewrite Hi.
  destruct (OrderedDict.get index key); [done | by split].
Qed.

Lemma Token_bynum_spec_witness :
  Token_bynum Existence (Some 7) false comparison_state
  = (Raise (KeyError "token with this int value does not exist"
              [AInt (Some 7)]), comparison_state)
  /\ Token_bynum Existence (Some 7) true comparison_state
     = (Return None, comparison_state).
Proof.
  pose proof (Token_bynum_spec comparison_state Existence Comparison
                comparison_numindex (Some 7)
                (comparison_state_numindex Existence (or_intror eq_refl)))
    as HT.
  exact HT.
Defined.

(** ** Equality is an equivalence *)

Lemma Token_eq_fields s other :
  Token_eq s other = true <->
  __class__ s = __class__ other
  /\ Token_str s = Token_str other /\ Token_int s = Token_int other.
Proof.
  unfold Token_eq, class_eq.
  rewrite !py_and_true, bool_decide_eq_true, str_eq_true, int_eq_true.
  tauto.
Qed.

(** X3: [==] on tokens is reflexive, symmetric and transitive, and [!=] is
    its negation. *)
Theorem Token_eq_equivalence :
  (forall s, Token_eq s s = true)
  /\ (forall s other, Token_eq s other = Token_eq other s)
  /\ (forall a b c,
        Token_eq a b = true -> Token_eq b c = true -> Token_eq a c = true)
  /\ (forall s other, Token_ne s other = true <-> Token_eq s other = false).
Proof.
  split; [|split; [|split]].
  - intros s. by apply Token_eq_fields.
  - intros s other.
    destruct (Token_eq other s) eqn:E.
    + apply Token_eq_fields in E as (? & ? & ?). by apply Token_eq_fields.
    + destruct (Token_eq s other) eqn:E'; [|done].
      apply Token_eq_fields in E' as (? & ? & ?).
      rewrite <- E. symmetry. by apply Token_eq_fields.
  - intros a b c (? & ? & ?)%Token_eq_fields (? & ? & ?)%Token_eq_fields.
    apply Token_eq_fields. repeat split; congruence.
  - intros s other. unfold Token_ne. by destruct (Token_eq s other).
Qed.

Lemma Token_eq_equivalence_witness :
  Token_eq first_EX (mkToken Existence second_EX) = false
  /\ Token_eq first_EX first_EX = true.
Proof.
  destruct Token_eq_equivalence as (Hrefl & Hsym & Htrans & Hne).
  split.
  - apply Hne. reflexivity.
  - exact (Htrans first_EX first_EX first_EX (Hrefl _) (Hrefl _)).
Defined.

(** ** The order on classes *)

Lemma mro_suffix c c' :
  c' ∈ mro c -> exists pre, mro c = (pre ++ mro c')%list.
Proof.
  induction c as [|n b IH]; simpl.
  - intros ->%list_elem_of_singleton. by exists [].
  - intros [->|Hin]%elem_of_cons; [by exists []|].
    destruct (IH Hin) as [pre ->]. by exists (Subclass n b :: pre).
Qed.

Lemma mro_length c c' :
  c' ∈ mro c -> (length (mro c') <= length (mro c))%nat
              /\ (length (mro c') = length (mro c) -> c' = c).
Proof.
  induction c as [|n b IH]; simpl.
  - intros ->%list_elem_of_singleton. done.
  - intros [->|Hin]%elem_of_cons; [done|].
    destruct (IH Hin) as [Hle _]. split; lia.
Qed.

Lemma issubclass_trans a b c :
  issubclass a b = true -> issubclass b c = true -> issubclass a c = true.
Proof.
  unfold issubclass. rewrite !bool_decide_eq_true.
  intros [pre ->]%mro_suffix Hc. apply elem_of_app. by right.
Qed.

Lemma issubclass_antisym a b :
  issubclass a b = true -> issubclass b a = true -> a = b.
Proof.
  unfold issubclass. rewrite !bool_decide_eq_true.
  intros [Hle _]%mro_length [Hle' Heq]%mro_length. apply Heq. lia.
Qed.

(** X4: [issubtoken] makes the token classes a partial order with [Token]
    on top, and [isparenttoken] is the same order read the other way. *)
Theorem issubtoken_partial_order :
  (forall c, Token_issubtoken c c = true)
  /\ (forall a b c,
        Token_issubtoken a b = true -> Token_issubtoken b c = true ->
        Token_issubtoken a c = true)
  /\ (forall a b,
        Token_issubtoken a b = true -> Token_issubtoken b a = true -> a = b)
  /\ (forall c, Token_issubtoken Token_class c = true)
  /\ (forall a b, Token_isparenttoken a b = Token_issubtoken b a).
Proof.
  unfold Token_issubtoken, Token_isparenttoken.
  split; [|split; [|split; [|split]]].
  - apply issubclass_refl.
  - intros a b c Hab Hbc. by eapply issubclass_trans.
  - intros a b Hab Hba. by apply issubclass_antisym.
  - intros c. apply bool_decide_eq_true, mro_Token_class.
  - done.
Qed.

Lemma issubtoken_partial_order_witness :
  Token_issubtoken Status FatalError = true.
Proof.
  destruct issubtoken_partial_order as (_ & Htrans & _).
  apply (Htrans Status Error FatalError); reflexivity.
Defined.

(** X5: a token belongs to its own class, to [Token], and to every class
    that a class it belongs to inherits from; [isof] is [includes] with
    the arguments exchanged. *)
Theorem includes_upward_closed (t : Token) :
  Token_includes (__class__ t) t = true
  /\ Token_includes Token_class t = true
  /\ (forall c c',
        Token_includes c t = true -> Token_issubtoken c' c = true ->
        Token_includes c' t = true)
  /\ (forall c, Token_isof t c = Token_includes c t).
Proof.
  unfold Token_includes, Token_isof, Token_issubtoken, isinstance.
  split; [|split; [|split]].
  - apply issubclass_refl.
  - apply bool_decide_eq_true, mro_Token_class.
  - intros c c' Hc Hc'. by eapply issubclass_trans.
  - done.
Qed.

Lemma includes_upward_closed_witness :
  Token_includes Status (mkToken FatalError nameless_value) = true.
Proof.
  destruct (includes_upward_closed (mkToken FatalError nameless_value))
    as (Hown & _ & Hup & _).
  apply (Hup Error Status); [|reflexivity].
  apply (Hup FatalError Error); [exact Hown | reflexivity].
Defined.

(** ** What makeroot and a construction leave alone *)

Lemma lookup_mro_update_notin {A} (attr : ClassAttrs -> option A) st c f l :
  c ∉ l ->
  lookup_mro attr (attrs (update_attrs st c f)) l
  = lookup_mro attr (attrs st) l.
Proof.
  induction l as [|c' l IH]; [done|].
  intros [Hne Hl]%not_elem_of_cons. cbn [lookup_mro]. rewrite (IH Hl).
  unfold update_attrs; cbn [attrs]. by rewrite decide_False.
Qed.

Lemma makeroot_getattr_outside {A} (attr : ClassAttrs -> option A)
    cls gi gni st c :
  issubclass c cls = false ->
  getattr attr (Token_makeroot cls gi gni st).2 c = getattr attr st c.
Proof.
  intros Hc%bool_decide_eq_false. rewrite makeroot_state.
  by apply lookup_mro_update_notin.
Qed.

(** X6: [cls.makeroot] changes nothing for a class that does not inherit
    from [cls]: its lookups and enumerations return what they returned
    before. *)
Theorem makeroot_isolated cls gi gni st c :
  issubclass c cls = false ->
  let st1 := (Token_makeroot cls gi gni st).2 in
  (forall key b, (Token_byval c key b st1).1 = (Token_byval c key b st).1)
  /\ (forall key b, (Token_bynum c key b st1).1 = (Token_bynum c key b st).1)
  /\ (forall b, (Token_tokens c b st1).1 = (Token_tokens c b st).1)
  /\ (forall b, (Token_subclasses c b st1).1 = (Token_subclasses c b st).1).
Proof.
  intros Hc st1. subst st1.
  unfold Token_byval, Token_bynum, Token_tokens, Token_subclasses. unfold_M.
  rewrite !(makeroot_getattr_outside _ _ _ _ _ _ Hc).
  repeat split; intros;
    match goal with |- context [getattr ?a st c] =>
      destruct (getattr a st c) as [[? ?]|]; [|done] end;
    simpl;
    repeat match goal with |- context [OrderedDict.get ?d ?k] =>
             destruct (OrderedDict.get d k) end;
    try done; by destruct b.
Qed.

Lemma makeroot_isolated_witness :
  (Token_byval Comparison "EQ" false
     (Token_makeroot LogEvent true true comparison_state).2).1
  = (Token_byval Comparison "EQ" false comparison_state).1.
Proof.
  destruct (makeroot_isolated LogEvent true true comparison_state Comparison
              eq_refl) as (Hs & _).
  exact (Hs "EQ" false).
Defined.

(** X7: after [cls.makeroot], [cls] enumerates no token and no class; with
    the string index enabled every key is missing from [cls.byval], and
    with the int index enabled every key is missing from [cls.bynum]. *)
Theorem makeroot_fresh_namespace cls gi gni st :
  let st1 := (Token_makeroot cls gi gni st).2 in
  (forall b, Token_tokens cls b st1 = (Return [], st1))
  /\ (forall b, Token_subclasses cls b st1 = (Return [], st1))
  /\ (gi = true ->
      forall key, Token_byval cls key true st1 = (Return None, st1)
                  /\ exists e, Token_byval cls key false st1
                               = (Raise (KeyError e [AStr (Some key)]), st1))
  /\ (gni = true ->
      forall key, Token_bynum cls key true st1 = (Return None, st1)
                  /\ exists e, Token_bynum cls key false st1
                               = (Raise (KeyError e [AInt key]), st1)).
Proof.
  intros st1. subst st1. rewrite makeroot_state.
  set (st1 := update_attrs st cls _).
  assert (attrs st1 cls
          = mkClassAttrs (Some OrderedDict.empty)
              (if gi then Some OrderedDict.empty else _index (attrs st cls))
              (if gni then Some OrderedDict.empty
               else _numindex (attrs st cls))) as Hcls
    by (unfold st1, update_attrs; simpl; by rewrite decide_True).
  assert (getattr _register st1 cls = Some (cls, OrderedDict.empty)) as Hr
    by (apply getattr_own; by rewrite Hcls).
  unfold Token_tokens, Token_subclasses, Token_byval, Token_bynum. unfold_M.
  rewrite Hr. split; [by intros []|]. split; [by intros []|].
  split; intros ->.
  - rewrite (getattr_own _index st1 cls OrderedDict.empty)
      by (by rewrite Hcls).
    intros key. split; [done | by eexists].
  - rewrite (getattr_own _numindex st1 cls OrderedDict.empty)
      by (by rewrite Hcls).
    intros key. split; [done | by eexists].
Qed.

Lemma makeroot_fresh_namespace_witness :
  Token_byval Comparison "EQ" true
    (Token_makeroot Comparison true false comparison_state).2
  = (Return None, (Token_makeroot Comparison true false comparison_state).2).
Proof.
  destruct (makeroot_fresh_namespace Comparison true false comparison_state)
    as (_ & _ & Hs & _).
  exact (proj1 (Hs eq_refl "EQ")).
Defined.

#[global] Instance touches_only_preorder cls : PreOrder (touches_only cls).
Proof.
  split.
  - intros st o. by split.
  - intros st1 st2 st3 H12 H23 o.
    destruct (H12 o) as [Ha Hb], (H23 o) as [Ha' Hb']. split.
    + intros Ho. by rewrite Ha', Ha.
    + by rewrite Hb', Hb.
Qed.

Lemma touches_only_update cls st owner f :
  owner ∈ mro cls ->
  (_register (f (attrs st owner)) = None
   <-> _register (attrs st owner) = None) ->
  touches_only cls st (update_attrs st owner f).
Proof.
  intros Hin Hf o. unfold update_attrs; simpl.
  destruct (decide (o = owner)) as [->|]; [|done].
  split; [done | exact Hf].
Qed.

Lemma register_local_touches s name :
  preserves (touches_only (__class__ s)) (register_local s name).
Proof.
  intros st r st'. unfold register_local. unfold_M.
  destruct (getattr _register st (__class__ s)) as [[owner outer]|] eqn:Ho;
    [|intros [= _ <-]; reflexivity].
  apply lookup_mro_owner in Ho as [Hin Ho].
  destruct (OrderedDict.get outer (__class__ s)) as [register|]; simpl.
  - destruct (OrderedDict.get register name); intros [= _ <-];
      [reflexivity|].
    apply touches_only_update; [done|]. simpl. split; intros; congruence.
  - intros [= _ <-].
    trans (set_register st owner
             (OrderedDict.set outer (__class__ s) OrderedDict.empty)).
    + apply touches_only_update; [done|]. simpl.
      split; intros; congruence.
    + apply touches_only_update; [done|]. simpl.
      rewrite decide_True by done. simpl. split; intros; congruence.
Qed.

Lemma register_index_touches s name :
  preserves (touches_only (__class__ s)) (register_index s name).
Proof.
  intros st r st'. unfold register_index.
  destruct (getattr _index st (__class__ s)) as [[owner index]|] eqn:Hi;
    [destruct (OrderedDict.get index name)|]; intros [= _ <-];
    try reflexivity.
  apply lookup_mro_owner in Hi as [Hin _]. by apply touches_only_update.
Qed.

Lemma register_numindex_touches s :
  preserves (touches_only (__class__ s)) (register_numindex s).
Proof.
  intros st r st'. unfold register_numindex.
  destruct (getattr _numindex st (__class__ s)) as [[owner index]|] eqn:Hi;
    [destruct (OrderedDict.get index (Token_int s))|]; intros [= _ <-];
    try reflexivity.
  apply lookup_mro_owner in Hi as [Hin _]. by apply touches_only_update.
Qed.

(** A construction changes attributes of classes in the MRO of its class
    only. *)
Lemma Token_init_touches cls sv iv fv dv lv val :
  preserves (touches_only cls) (Token_init cls sv iv fv dv lv val).
Proof.
  unfold Token_init. apply preserves_bind; [tc_solve| |].
  { intros st r st' Hv o.
    by rewrite (resolve_val_attrs _ _ _ _ _ _ _ _ _ Hv). }
  intros v. destruct (Token_str _); [|apply preserves_raise; tc_solve].
  apply preserves_bind;
    [tc_solve | apply (register_local_touches (mkToken cls v)) | intros _].
  apply preserves_bind;
    [tc_solve | apply (register_index_touches (mkToken cls v)) | intros _].
  apply preserves_bind;
    [tc_solve | apply (register_numindex_touches (mkToken cls v)) | intros _].
  apply preserves_ret; tc_solve.
Qed.

Lemma lookup_mro_outside {A} (attr : ClassAttrs -> option A) d st st' l o a :
  (forall o, o ∉ mro d -> attrs st' o = attrs st o) ->
  (forall o, attr (attrs st' o) = None <-> attr (attrs st o) = None) ->
  lookup_mro attr (attrs st) l = Some (o, a) ->
  o ∉ mro d ->
  lookup_mro attr (attrs st') l = Some (o, a).
Proof.
  intros Hout Hdef Hl Ho. induction l as [|c l IH]; simpl in *; [done|].
  destruct (attr (attrs st c)) as [a'|] eqn:E.
  - injection Hl as -> ->. by rewrite (Hout o Ho), E.
  - apply Hdef in E. rewrite E. by apply IH.
Qed.

(** X8: constructing a token of class [d], whatever its outcome, changes
    nothing for a class [c] whose registry is owned by a class that [d]
    does not inherit from: [c.byval], [c.bynum], [c.tokens] and
    [c.subclasses] return what they returned before. *)
Theorem construction_isolated d sv iv fv dv lv val st c :
  let st' := (Token_init d sv iv fv dv lv val st).2 in
  (forall o index,
     getattr _index st c = Some (o, index) -> issubclass d o = false ->
     forall key b, (Token_byval c key b st').1 = (Token_byval c key b st).1)
  /\ (forall o index,
        getattr _numindex st c = Some (o, index) -> issubclass d o = false ->
        forall key b,
          (Token_bynum c key b st').1 = (Token_bynum c key b st).1)
  /\ (forall o outer,
        getattr _register st c = Some (o, outer) -> issubclass d o = false ->
        forall b,
          (Token_tokens c b st').1 = (Token_tokens c b st).1
          /\ (Token_subclasses c b st').1 = (Token_subclasses c b st).1).
Proof.
  intros st'. subst st'.
  destruct (Token_init d sv iv fv dv lv val st) as [r st'] eqn:E. simpl.
  pose proof (Token_init_touches _ _ _ _ _ _ _ _ _ _ E) as Ht.
  pose proof (Token_init_indexes_defined _ _ _ _ _ _ _ _ _ _ E) as Hd.
  assert (forall o, o ∉ mro d -> attrs st' o = attrs st o) as Hout
    by (intros o; apply Ht).
  split; [|split].
  - intros o index Hi Ho%bool_decide_eq_false key b.
    unfold Token_byval. unfold_M. rewrite Hi.
    assert (getattr _index st' c = Some (o, index)) as ->;
      [|simpl; destruct (OrderedDict.get index key); [done | by destruct b]].
    by apply (lookup_mro_outside _index d st st' _ o index Hout
                (fun o => proj1 (Hd o)) Hi Ho).
  - intros o index Hi Ho%bool_decide_eq_false key b.
    unfold Token_bynum. unfold_M. rewrite Hi.
    assert (getattr _numindex st' c = Some (o, index)) as ->;
      [|simpl; destruct (OrderedDict.get index key); [done | by destruct b]].
    by apply (lookup_mro_outside _numindex d st st' _ o index Hout
                (fun o => proj2 (Hd o)) Hi Ho).
  - intros o outer Hr Ho%bool_decide_eq_false b.
    unfold Token_tokens, Token_subclasses. unfold_M. rewrite Hr.
    assert (getattr _register st' c = Some (o, outer)) as ->;
      [|by destruct b].
    by apply (lookup_mro_outside _register d st st' _ o outer Hout
                (fun o => proj2 (Ht o)) Hr Ho).
Qed.

Lemma construction_isolated_witness :
  (Token_byval Existence "EQ" false
     (Token_init LogEvent (Some "EQ") (Some 0) VNone VNone VNone None
        (Token_makeroot LogEvent true true comparison_state).2).2).1
  = (Token_byval Existence "EQ" false
       (Token_makeroot LogEvent true true comparison_state).2).1.
Proof.
  destruct (construction_isolated LogEvent (Some "EQ") (Some 0) VNone VNone
              VNone None (Token_makeroot LogEvent true true comparison_state).2
              Existence) as (Hs & _).
  assert (getattr _index (Token_makeroot LogEvent true true comparison_state).2
            Existence = Some (Comparison, comparison_index)) as Hi
    by (vm_compute; reflexivity).
  exact (Hs Comparison comparison_index Hi eq_refl "EQ" false).
Defined.

(** ** Construction and lookup *)

Lemma lookup_mro_ext_attr {A} (attr : ClassAttrs -> option A) env env' l :
  (forall c, attr (env c) = attr (env' c)) ->
  lookup_mro attr env l = lookup_mro attr env' l.
Proof.
  intros He. induction l as [|c l IH]; simpl; [done|]. by rewrite He, IH.
Qed.

Lemma get_Some_elem_of {K V} `{EqDecision K} (d : OrderedDict K V) k v :
  OrderedDict.get d k = Some v -> (k, v) ∈ d.
Proof.
  induction d as [|[k' v'] d IH]; simpl; [done|].
  destruct (decide (k' = k)) as [->|].
  - intros [= ->]. left.
  - intros Hd. right. by apply IH.
Qed.

(** The register seen from the class once a token with a new name has
    passed lines 137-144, whatever the outcome of the construction. *)
Lemma Token_init_register
    cls sv iv fv dv lv val st v st0 name owner outer r st' :
  resolve_val sv iv fv dv lv val st = (Return v, st0) ->
  strval v = Some name ->
  getattr _register st cls = Some (owner, outer) ->
  (forall register,
     OrderedDict.get outer cls = Some register ->
     OrderedDict.get register name = None) ->
  Token_init cls sv iv fv dv lv val st = (r, st') ->
  getattr _register st' cls
  = Some (owner, Register_insert outer (mkToken cls v) name).
Proof.
  intros Hv Hname Ho Hfresh Hinit.
  pose proof (resolve_val_attrs _ _ _ _ _ _ _ _ _ Hv) as Hattrs.
  set (s := mkToken cls v) in *.
  assert (getattr _register st0 (__class__ s) = Some (owner, outer)) as Ho0
    by (by rewrite (getattr_same_attrs _ _ _ _ Hattrs)).
  destruct (register_local_fresh s name st0 owner outer Ho0 Hfresh)
    as (st1 & Hlocal & _ & Hsame).
  rewrite (Token_init_named _ _ _ _ _ _ _ _ _ _ _ Hv Hname) in Hinit.
  fold s in Hinit. revert Hinit. step_bind. rewrite Hlocal. intros Hinit.
  apply indexes_same_registers in Hinit.
  unfold getattr. rewrite (lookup_mro_ext_attr _ _ (attrs st1)) by done.
  rewrite (lookup_mro_ext _ _ _ _ Hsame).
  eapply getattr_register_set_register. exact Ho0.
Qed.

(** The token is enumerated by its class once it is in the register. *)
Lemma registered_tokens_Register_insert outer (s : Token) name :
  s ∈ registered_tokens (__class__ s) (Register_insert outer s name).
Proof.
  destruct (Register_insert_get outer s name) as (register & Hr & Hn).
  unfold registered_tokens. apply list_elem_of_bind. exists (__class__ s).
  split.
  - rewrite Hr. unfold OrderedDict.items.
    apply list_elem_of_fmap. exists (name, s). split; [done|].
    by apply get_Some_elem_of.
  - unfold registered_subclasses. apply list_elem_of_filter. split.
    + rewrite issubclass_refl. done.
    + unfold OrderedDict.keys. apply list_elem_of_fmap.
      exists (__class__ s, register). split; [done|].
      by apply get_Some_elem_of.
Qed.

(** [Token.__init__] when every check passes. *)
Lemma Token_init_returns
    cls sv iv fv dv lv val st v st0 name owner outer :
  resolve_val sv iv fv dv lv val st = (Return v, st0) ->
  strval v = Some name ->
  getattr _register st cls = Some (owner, outer) ->
  (forall register,
     OrderedDict.get outer cls = Some register ->
     OrderedDict.get register name = None) ->
  (forall iowner index,
     getattr _index st cls = Some (iowner, index) ->
     OrderedDict.get index name = None) ->
  (forall nowner numindex,
     getattr _numindex st cls = Some (nowner, numindex) ->
     OrderedDict.get numindex (intval v) = None) ->
  exists st',
    Token_init cls sv iv fv dv lv val st = (Return (mkToken cls v), st')
    /\ (forall iowner index,
          getattr _index st cls = Some (iowner, index) ->
          getattr _index st' cls
          = Some (iowner, (index ++ [(name, mkToken cls v)])%list))
    /\ (forall nowner numindex,
          getattr _numindex st cls = Some (nowner, numindex) ->
          getattr _numindex st' cls
          = Some (nowner, (numindex ++ [(intval v, mkToken cls v)])%list)).
Proof.
  intros Hv Hname Ho Hfresh Hifresh Hnfresh.
  pose proof (resolve_val_attrs _ _ _ _ _ _ _ _ _ Hv) as Hattrs.
  set (s := mkToken cls v).
  destruct (register_local_fresh_indexes s name st st0 owner outer
              Hattrs Ho Hfresh) as (st1 & Hlocal & Hi1 & Hn1).
  assert (exists st2,
            register_index s name st1 = (Return tt, st2)
            /\ (forall iowner index,
                  getattr _index st cls = Some (iowner, index) ->
                  getattr _index st2 cls
                  = Some (iowner, (index ++ [(name, s)])%list))
            /\ getattr _numindex st2 cls = getattr _numindex st cls)
    as (st2 & Hri & Hi2 & Hn2).
  { destruct (getattr _index st cls) as [[iowner index]|] eqn:Hi.
    - pose proof (Hifresh _ _ eq_refl) as Hget.
      erewrite register_index_fresh; [|by rewrite Hi1|done].
      eexists. split; [done|]. split.
      + intros ? ? [= <- <-]. rewrite (set_fresh _ _ _ Hget).
        unfold getattr. eapply getattr_index_set_index.
        fold (getattr _index st1 cls). by rewrite Hi1.
      + by rewrite getattr_numindex_set_index, Hn1.
    - rewrite register_index_absent by (by rewrite Hi1).
      eexists. split; [done|]. split; [done | by rewrite Hn1]. }
  assert (exists st3,
            register_numindex s st2 = (Return tt, st3)
            /\ getattr _index st3 cls = getattr _index st2 cls
            /\ (forall nowner numindex,
                  getattr _numindex st cls = Some (nowner, numindex) ->
                  getattr _numindex st3 cls
                  = Some (nowner, (numindex ++ [(intval v, s)])%list)))
    as (st3 & Hrn & Hi3 & Hn3).
  { destruct (getattr _numindex st cls) as [[nowner numindex]|] eqn:Hn.
    - pose proof (Hnfresh _ _ eq_refl) as Hget.
      erewrite register_numindex_fresh; [|done|done].
      eexists. split; [done|]. split.
      + by rewrite getattr_index_set_numindex.
      + intros ? ? [= <- <-]. change (Token_int s) with (intval v).
        rewrite (set_fresh _ _ _ Hget).
        unfold getattr. eapply getattr_numindex_set_numindex. exact Hn2.
    - rewrite register_numindex_absent by done.
      eexists. split; [done|]. by split. }
  exists st3. split; [|split; [|done]].
  - rewrite (Token_init_named _ _ _ _ _ _ _ _ _ _ _ Hv Hname). fold s.
    step_bind. rewrite Hlocal. step_bind. rewrite Hri. step_bind.
    by rewrite Hrn.
  - intros iowner index Hi. rewrite Hi3. by apply Hi2.
Qed.

Lemma get_snoc_fresh {K V} `{EqDecision K} (d : OrderedDict K V) k v :
  OrderedDict.get d k = None -> OrderedDict.get (d ++ [(k, v)])%list k = Some v.
Proof. intros Hd. by rewrite <- (set_fresh _ _ _ Hd), get_set_eq. Qed.

(** X9: a construction whose name is new in the register of its class and
    in the string index, and whose int value is new in the int index,
    returns the token; from then on [byval] returns it for its name when
    there is a string index, [bynum] returns it for its int value when
    there is an int index, and the [tokens] of its class hold it. *)
Theorem construct_then_lookup
    cls sv iv fv dv lv val st v st0 name owner outer :
  resolve_val sv iv fv dv lv val st = (Return v, st0) ->
  strval v = Some name ->
  getattr _register st cls = Some (owner, outer) ->
  (forall register,
     OrderedDict.get outer cls = Some register ->
     OrderedDict.get register name = None) ->
  (forall iowner index,
     getattr _index st cls = Some (iowner, index) ->
     OrderedDict.get index name = None) ->
  (forall nowner numindex,
     getattr _numindex st cls = Some (nowner, numindex) ->
     OrderedDict.get numindex (intval v) = None) ->
  exists st',
    Token_init cls sv iv fv dv lv val st = (Return (mkToken cls v), st')
    /\ (is_Some (getattr _index st cls) ->
        forall b,
          Token_byval cls name b st' = (Return (Some (mkToken cls v)), st'))
    /\ (is_Some (getattr _numindex st cls) ->
        forall b,
          Token_bynum cls (intval v) b st'
          = (Return (Some (mkToken cls v)), st'))
    /\ exists l,
         Token_tokens cls false st' = (Return l, st')
         /\ IToken (mkToken cls v) ∈ l.
Proof.
  intros Hv Hname Ho Hfresh Hifresh Hnfresh.
  destruct (Token_init_returns cls sv iv fv dv lv val st v st0 name owner
              outer Hv Hname Ho Hfresh Hifresh Hnfresh)
    as (st' & Hinit & Hi & Hn).
  exists st'. split; [done|]. split; [|split].
  - intros [[iowner index] His] b. unfold Token_byval. unfold_M.
    rewrite (Hi _ _ His). by rewrite (get_snoc_fresh _ _ _ (Hifresh _ _ His)).
  - intros [[nowner numindex] His] b. unfold Token_bynum. unfold_M.
    rewrite (Hn _ _ His). by rewrite (get_snoc_fresh _ _ _ (Hnfresh _ _ His)).
  - unfold Token_tokens. unfold_M.
    rewrite (Token_init_register _ _ _ _ _ _ _ _ _ _ _ _ _ _ _
               Hv Hname Ho Hfresh Hinit).
    eexists. split; [done|]. apply list_elem_of_fmap_2.
    apply (registered_tokens_Register_insert outer (mkToken cls v) name).
Qed.

Lemma comparison_fresh_ZZ :
  (forall register,
     OrderedDict.get comparison_register Existence = Some register ->
     OrderedDict.get register "ZZ" = None)
  /\ (forall iowner index,
        getattr _index comparison_state Existence = Some (iowner, index) ->
        OrderedDict.get index "ZZ" = None).
Proof.
  split.
  - intros register Hr. vm_compute in Hr. injection Hr as <-. reflexivity.
  - intros iowner index Hi.
    rewrite (comparison_state_index Existence (or_intror eq_refl)) in Hi.
    injection Hi as <- <-. reflexivity.
Qed.

Lemma construct_then_lookup_witness :
  exists st',
    Token_init Existence (Some "ZZ") (Some 9) VNone VNone VNone None
      comparison_state
    = (Return (mkToken Existence value_ZZ9), st')
    /\ Token_byval Existence "ZZ" false st'
       = (Return (Some (mkToken Existence value_ZZ9)), st')
    /\ Token_bynum Existence (Some 9) false st'
       = (Return (Some (mkToken Existence value_ZZ9)), st').
Proof.
  assert (forall nowner numindex,
            getattr _numindex comparison_state Existence
            = Some (nowner, numindex) ->
            OrderedDict.get numindex (intval value_ZZ9) = None) as Hnfresh.
  { intros nowner numindex Hn.
    rewrite (comparison_state_numindex Existence (or_intror eq_refl)) in Hn.
    injection Hn as <- <-. reflexivity. }
  destruct (construct_then_lookup
              Existence (Some "ZZ") (Some 9) VNone VNone VNone None
              comparison_state value_ZZ9 _ "ZZ" Comparison
              comparison_register eq_refl eq_refl
              (comparison_state_register Existence (or_intror eq_refl))
              (proj1 comparison_fresh_ZZ) (proj2 comparison_fresh_ZZ)
              Hnfresh) as (st' & Hinit & Hs & Hn & _).
  exists st'. split; [exact Hinit|]. split.
  - apply Hs.
    rewrite (comparison_state_index Existence (or_intror eq_refl)).
    by eexists.
  - apply Hn.
    rewrite (comparison_state_numindex Existence (or_intror eq_refl)).
    by eexists.
Defined.

Lemma registered_tokens_singleton cls name (s : Token) :
  registered_tokens cls [(cls, [(name, s)])] = [s].
Proof.
  unfold registered_tokens, registered_subclasses, OrderedDict.keys.
  cbn [fmap list_fmap fst].
  rewrite filter_cons_True by (rewrite issubclass_refl; done).
  rewrite filter_nil. cbn [mbind list_bind OrderedDict.get].
  by rewrite decide_True.
Qed.

(** X10: right after [cls.makeroot(True, True)], constructing a token of
    [cls] with any name returns the token, whatever was registered before:
    it is then the only token that [cls] enumerates, and [byval] and
    [bynum] return it. *)
Theorem makeroot_then_construct cls st sv iv fv dv lv val v st0 name :
  let st1 := (Token_makeroot cls true true st).2 in
  resolve_val sv iv fv dv lv val st1 = (Return v, st0) ->
  strval v = Some name ->
  exists st',
    Token_init cls sv iv fv dv lv val st1 = (Return (mkToken cls v), st')
    /\ Token_tokens cls false st' = (Return [IToken (mkToken cls v)], st')
    /\ (forall b,
          Token_byval cls name b st' = (Return (Some (mkToken cls v)), st'))
    /\ (forall b,
          Token_bynum cls (intval v) b st'
          = (Return (Some (mkToken cls v)), st')).
Proof.
  intros st1 Hv Hname. subst st1. revert Hv. rewrite makeroot_state.
  set (st1 := update_attrs st cls _). intros Hv.
  assert (attrs st1 cls
          = mkClassAttrs (Some OrderedDict.empty) (Some OrderedDict.empty)
              (Some OrderedDict.empty)) as Hcls
    by (unfold st1, update_attrs; simpl; by rewrite decide_True).
  assert (getattr _register st1 cls = Some (cls, OrderedDict.empty)) as Hr
    by (apply getattr_own; by rewrite Hcls).
  assert (getattr _index st1 cls = Some (cls, OrderedDict.empty)) as Hi
    by (apply getattr_own; by rewrite Hcls).
  assert (getattr _numindex st1 cls = Some (cls, OrderedDict.empty)) as Hn
    by (apply getattr_own; by rewrite Hcls).
  destruct (Token_init_returns cls sv iv fv dv lv val st1 v st0 name cls
              OrderedDict.empty Hv Hname Hr) as (st' & Hinit & Hi' & Hn').
  { intros register [=]. }
  { intros iowner index. rewrite Hi. by intros [= <- <-]. }
  { intros nowner numindex. rewrite Hn. by intros [= <- <-]. }
  exists st'. split; [done|]. split; [|split].
  - unfold Token_tokens. unfold_M.
    rewrite (Token_init_register cls sv iv fv dv lv val st1 v st0 name cls
               OrderedDict.empty (Return (mkToken cls v)) st' Hv Hname Hr)
      by (done || by intros register [=]).
    unfold Register_insert. cbn [OrderedDict.get OrderedDict.empty __class__].
    rewrite set_set. unfold OrderedDict.empty. cbn [OrderedDict.set].
    by rewrite registered_tokens_singleton.
  - intros b. unfold Token_byval. unfold_M. rewrite (Hi' _ _ Hi). simpl.
    by rewrite decide_True.
  - intros b. unfold Token_bynum. unfold_M. rewrite (Hn' _ _ Hn). simpl.
    by rewrite decide_True.
Qed.

Lemma makeroot_then_construct_witness :
  exists st',
    Token_init Comparison (Some "EQ") (Some 0) VNone VNone VNone None
      remade_state
    = (Return (mkToken Comparison second_EQ), st')
    /\ Token_tokens Comparison false st'
       = (Return [IToken (mkToken Comparison second_EQ)], st').
Proof.
  destruct (makeroot_then_construct Comparison comparison_state
              (Some "EQ") (Some 0) VNone VNone VNone None second_EQ _ "EQ"
              eq_refl eq_refl) as (st' & Hinit & Htokens & _).
  exists st'. split; [exact Hinit | exact Htokens].
Defined.

(** X11: when the name is new in the register of the class and in the
    string index, and the int index already holds the int value,
    construction raises the [RuntimeError] of the int index check; by then
    the token is in the register and in the string index, so [byval]
    returns it and the [tokens] of its class hold it, and the int index is
    unchanged. *)
Theorem int_duplicate_keeps_entries
    cls sv iv fv dv lv val st v st0 name owner outer iowner index
    nowner numindex existing :
  resolve_val sv iv fv dv lv val st = (Return v, st0) ->
  strval v = Some name ->
  getattr _register st cls = Some (owner, outer) ->
  (forall register,
     OrderedDict.get outer cls = Some register ->
     OrderedDict.get register name = None) ->
  getattr _index st cls = Some (iowner, index) ->
  OrderedDict.get index name = None ->
  getattr _numindex st cls = Some (nowner, numindex) ->
  OrderedDict.get numindex (intval v) = Some existing ->
  exists st',
    Token_init cls sv iv fv dv lv val st
    = (Raise (RuntimeError MSG_SEGMENT
                [AInt (intval v); ATok (mkToken cls v); ATok existing]), st')
    /\ (forall b,
          Token_byval cls name b st' = (Return (Some (mkToken cls v)), st'))
    /\ (exists l,
          Token_tokens cls false st' = (Return l, st')
          /\ IToken (mkToken cls v) ∈ l)
    /\ (forall b,
          Token_bynum cls (intval v) b st' = (Return (Some existing), st')).
Proof.
  intros Hv Hname Ho Hfresh Hi Hget Hn Hdup.
  pose proof (Token_init_numindex cls sv iv fv dv lv val st v st0 name owner
                outer nowner numindex Hv Hname Ho Hfresh) as HT.
  rewrite Hdup in HT. destruct HT as (st' & Hinit & Hn'); [|done|].
  { intros iowner' index'. rewrite Hi. by intros [= <- <-]. }
  pose proof (Token_init_index cls sv iv fv dv lv val st v st0 name owner
                outer iowner index Hv Hname Ho Hfresh Hi) as HI.
  rewrite Hget in HI. destruct HI as (r & st'' & Hinit' & Hi').
  rewrite Hinit in Hinit'. injection Hinit' as <- <-.
  exists st'. split; [done|]. split; [|split].
  - intros b. unfold Token_byval. unfold_M. rewrite Hi'.
    by rewrite (get_snoc_fresh _ _ _ Hget).
  - unfold Token_tokens. unfold_M.
    rewrite (Token_init_register _ _ _ _ _ _ _ _ _ _ _ _ _ _ _
               Hv Hname Ho Hfresh Hinit).
    eexists. split; [done|]. apply list_elem_of_fmap_2.
    apply (registered_tokens_Register_insert outer (mkToken cls v) name).
  - intros b. unfold Token_bynum. unfold_M. rewrite Hn'. by rewrite Hdup.
Qed.

Lemma int_duplicate_keeps_entries_witness :
  exists st',
    Token_init Existence (Some "ZZ") (Some 0) VNone VNone VNone None
      comparison_state
    = (Raise (RuntimeError MSG_SEGMENT
                [AInt (Some 0); ATok (mkToken Existence value_ZZ0);
                 ATok first_EQ]), st')
    /\ Token_byval Existence "ZZ" false st'
       = (Return (Some (mkToken Existence value_ZZ0)), st').
Proof.
  destruct (int_duplicate_keeps_entries
              Existence (Some "ZZ") (Some 0) VNone VNone VNone None
              comparison_state value_ZZ0 _ "ZZ" Comparison
              comparison_register Comparison comparison_index
              Comparison comparison_numindex first_EQ
              eq_refl eq_refl
              (comparison_state_register Existence (or_intror eq_refl))
              (proj1 comparison_fresh_ZZ)
              (comparison_state_index Existence (or_intror eq_refl))
              eq_refl
              (comparison_state_numindex Existence (or_intror eq_refl))
              eq_refl) as (st' & Hinit & Hs & _).
  exists st'. split; [exact Hinit | exact (Hs false)].
Defined.

(** ** Well-formed registries along a run *)

Section dict_ok_facts.
Context {K V : Type} `{EqDecision K} (P : K -> V -> Prop).
Implicit Types (d : OrderedDict K V) (k : K) (v : V).

Lemma elem_of_set d k v x :
  x ∈ OrderedDict.set d k v -> x = (k, v) \/ x ∈ d.
Proof.
  induction d as [|[k' v'] d IH]; simpl.
  - intros ->%list_elem_of_singleton. by left.
  - destruct (decide (k' = k)) as [->|].
    + intros [->|?]%elem_of_cons; [by left | right; by right].
    + intros [->|Hx]%elem_of_cons; [right; left|].
      destruct (IH Hx) as [->|?]; [by left | right; by right].
Qed.

Lemma keys_set d k v k' :
  k' ∈ OrderedDict.keys (OrderedDict.set d k v) ->
  k' = k \/ k' ∈ OrderedDict.keys d.
Proof.
  unfold OrderedDict.keys. intros [[k0 v0] [-> Hx]]%list_elem_of_fmap.
  apply elem_of_set in Hx as [[= -> ->]|Hx]; [by left | right].
  apply list_elem_of_fmap. by exists (k0, v0).
Qed.

Lemma keys_set_NoDup d k v :
  NoDup (OrderedDict.keys d) -> NoDup (OrderedDict.keys (OrderedDict.set d k v)).
Proof.
  unfold OrderedDict.keys. induction d as [|[k' v'] d IH]; simpl.
  - intros _. apply NoDup_singleton.
  - intros [Hk' Hd]%NoDup_cons. destruct (decide (k' = k)) as [->|Hne]; simpl.
    + by apply NoDup_cons.
    + apply NoDup_cons. split; [|by apply IH].
      intros [->|Hin]%(keys_set d k v); done.
Qed.

Lemma dict_ok_empty : dict_ok P (@OrderedDict.empty K V).
Proof. split; [constructor | by intros k v ?%elem_of_nil]. Qed.

Lemma dict_ok_set d k v :
  dict_ok P d -> P k v -> dict_ok P (OrderedDict.set d k v).
Proof.
  intros [Hnd HP] Hkv. split; [by apply keys_set_NoDup|].
  intros k' v' [[= -> ->]|Hin]%elem_of_set; [done | by apply HP].
Qed.

Lemma dict_ok_get d k v : dict_ok P d -> OrderedDict.get d k = Some v -> P k v.
Proof. intros [_ HP] Hget. by apply HP, get_Some_elem_of. Qed.

Lemma elem_of_get d k v :
  NoDup (OrderedDict.keys d) -> (k, v) ∈ d -> OrderedDict.get d k = Some v.
Proof.
  unfold OrderedDict.keys. induction d as [|[k' v'] d IH]; simpl.
  - by intros _ ?%elem_of_nil.
  - intros [Hk' Hd]%NoDup_cons [[= -> ->]|Hin]%elem_of_cons.
    + by rewrite decide_True.
    + destruct (decide (k' = k)) as [->|]; [|by apply IH].
      exfalso. apply Hk'. apply list_elem_of_fmap. by exists (k, v).
Qed.
End dict_ok_facts.

#[global] Instance keeps_well_formed_preorder : PreOrder keeps_well_formed.
Proof.
  split.
  - intros st Hst. exact Hst.
  - intros st1 st2 st3 H12 H23 Hst. by apply H23, H12.
Qed.

Lemma well_formed_update st o f :
  well_formed st -> attrs_ok o (f (attrs st o)) ->
  well_formed (update_attrs st o f).
Proof.
  intros Hst Hf o'. unfold update_attrs; simpl.
  destruct (decide (o' = o)) as [->|]; [done | apply Hst].
Qed.

Lemma initial_state_well_formed : well_formed initial_state.
Proof.
  intros [|n b]; simpl; (split; [|split]); intros d [=]; subst.
  apply dict_ok_empty.
Qed.

Lemma getattr_issubclass_owner {A} (attr : ClassAttrs -> option A)
    st cls owner a :
  getattr attr st cls = Some (owner, a) ->
  issubclass cls owner = true /\ attr (attrs st owner) = Some a.
Proof.
  intros [Hin Ha]%lookup_mro_owner. split; [|done].
  by apply bool_decide_eq_true.
Qed.

Lemma register_local_well_formed s name :
  Token_str s = Some name ->
  preserves keeps_well_formed (register_local s name).
Proof.
  intros Hname st r st'. unfold register_local. unfold_M.
  destruct (getattr _register st (__class__ s)) as [[owner outer]|] eqn:Ho;
    [|intros [= _ <-]; reflexivity].
  apply getattr_issubclass_owner in Ho as [Hsub Ho].
  assert (forall register,
            dict_ok (named_in (__class__ s)) register ->
            well_formed st ->
            well_formed
              (set_register st owner
                 (OrderedDict.set outer (__class__ s)
                    (OrderedDict.set register name s)))) as Hset.
  { intros register Hreg Hst. apply well_formed_update; [done|].
    destruct (Hst owner) as (Hr & Hi & Hn). split; [|by split].
    simpl. intros ? [= <-]. apply dict_ok_set; [by apply Hr|].
    split; [done|]. split.
    - intros Hnil.
      assert ((name, s) ∈ OrderedDict.set register name s) as Hin
        by (apply get_Some_elem_of; by rewrite get_set_eq).
      rewrite Hnil in Hin. by apply elem_of_nil in Hin.
    - by apply dict_ok_set. }
  destruct (OrderedDict.get outer (__class__ s)) as [register|] eqn:Hr; simpl.
  - destruct (OrderedDict.get register name); intros [= _ <-];
      [reflexivity|].
    intros Hst. apply Hset; [|done].
    destruct (Hst owner) as (Hrok & _).
    by apply (dict_ok_get _ _ _ _ (Hrok _ Ho) Hr).
  - intros [= _ <-] Hst. specialize (Hset [] (dict_ok_empty _) Hst).
    intros o. specialize (Hset o). revert Hset.
    unfold set_register, update_attrs; simpl.
    destruct (decide (o = owner)) as [->|]; [|done].
    rewrite decide_True by done. simpl. by rewrite set_set.
Qed.

Lemma register_index_well_formed s name :
  Token_str s = Some name ->
  preserves keeps_well_formed (register_index s name).
Proof.
  intros Hname st r st'. unfold register_index.
  destruct (getattr _index st (__class__ s)) as [[owner index]|] eqn:Hi;
    [destruct (OrderedDict.get index name)|]; intros [= _ <-];
    try reflexivity.
  apply getattr_issubclass_owner in Hi as [Hsub Hi].
  intros Hst. apply well_formed_update; [done|].
  destruct (Hst owner) as (Hr & Hiok & Hn). split; [done|]. split; [|done].
  simpl. intros ? [= <-]. apply dict_ok_set; [by apply Hiok | done].
Qed.

Lemma register_numindex_well_formed s :
  preserves keeps_well_formed (register_numindex s).
Proof.
  intros st r st'. unfold register_numindex.
  destruct (getattr _numindex st (__class__ s)) as [[owner index]|] eqn:Hi;
    [destruct (OrderedDict.get index (Token_int s))|]; intros [= _ <-];
    try reflexivity.
  apply getattr_issubclass_owner in Hi as [Hsub Hi].
  intros Hst. apply well_formed_update; [done|].
  destruct (Hst owner) as (Hr & Hiok & Hn). split; [done|]. split; [done|].
  simpl. intros ? [= <-]. apply dict_ok_set; [by apply Hn | done].
Qed.

Lemma Token_init_well_formed cls sv iv fv dv lv val :
  preserves keeps_well_formed (Token_init cls sv iv fv dv lv val).
Proof.
  unfold Token_init. apply preserves_bind; [tc_solve| |].
  { intros st r st' Hv Hst o.
    rewrite (resolve_val_attrs _ _ _ _ _ _ _ _ _ Hv). apply Hst. }
  intros v. destruct (Token_str _) as [name|] eqn:Hname;
    [|apply preserves_raise; tc_solve].
  apply preserves_bind;
    [tc_solve | by apply register_local_well_formed | intros _].
  apply preserves_bind;
    [tc_solve | by apply register_index_well_formed | intros _].
  apply preserves_bind;
    [tc_solve | apply register_numindex_well_formed | intros _].
  apply preserves_ret; tc_solve.
Qed.

Lemma exec_well_formed c st : well_formed st -> well_formed (exec c st).
Proof.
  intros Hst. destruct c as [cls sv iv fv dv lv val | r gi gni]; simpl.
  - destruct (Token_init cls sv iv fv dv lv val st) as [res st'] eqn:E.
    by apply (Token_init_well_formed _ _ _ _ _ _ _ _ _ _ E).
  - apply well_formed_update; [done|].
    destruct (Hst r) as (Hr & Hi & Hn). split; [|split]; simpl.
    + intros ? [= <-]. apply dict_ok_empty.
    + destruct gi; [intros ? [= <-]; apply dict_ok_empty | done].
    + destruct gni; [intros ? [= <-]; apply dict_ok_empty | done].
Qed.

Lemma run_well_formed prog st :
  well_formed st -> well_formed (run prog st).
Proof.
  revert st. induction prog as [|c prog IH]; intros st Hst; [done|].
  rewrite run_cons. by apply IH, exec_well_formed.
Qed.

(** ** What lookups and enumerations return after a run *)

Lemma run_initial_well_formed prog : well_formed (run prog initial_state).
Proof. apply run_well_formed, initial_state_well_formed. Qed.



Lemma elem_of_registered_subclasses cls (outer : Register) c :
  c ∈ registered_subclasses cls outer
  <-> issubclass c cls = true /\ c ∈ OrderedDict.keys outer.
Proof.
  unfold registered_subclasses. rewrite list_elem_of_filter.
  split; intros [Hc Hin]; (split; [|done]).
  - apply orb_True in Hc as [Hc|Hc%bool_decide_unpack];
      [by apply Is_true_true | subst; apply issubclass_refl].
  - rewrite Hc. done.
Qed.

Lemma elem_of_keys {K V} (d : OrderedDict K V) k :
  k ∈ OrderedDict.keys d <-> exists v, (k, v) ∈ d.
Proof.
  unfold OrderedDict.keys. rewrite list_elem_of_fmap. split.
  - intros [[k' v] [-> Hin]]. by exists v.
  - intros [v Hin]. by exists (k, v).
Qed.

Lemma elem_of_registered_tokens cls (outer : Register) (t : Token) :
  NoDup (OrderedDict.keys outer) ->
  t ∈ registered_tokens cls outer
  <-> exists c register name,
        (c, register) ∈ outer /\ issubclass c cls = true
        /\ (name, t) ∈ register.
Proof.
  intros Hnd. unfold registered_tokens. rewrite list_elem_of_bind. split.
  - intros (c & Ht & [Hc [register Hin]%elem_of_keys]%elem_of_registered_subclasses).
    rewrite (elem_of_get _ _ _ Hnd Hin) in Ht. unfold OrderedDict.items in Ht.
    apply list_elem_of_fmap in Ht as [[name t'] [-> Ht]].
    by exists c, register, name.
  - intros (c & register & name & Hin & Hc & Ht). exists c. split.
    + rewrite (elem_of_get _ _ _ Hnd Hin). unfold OrderedDict.items.
      apply list_elem_of_fmap. by exists (name, t).
    + apply elem_of_registered_subclasses. split; [done|].
      apply elem_of_keys. by exists register.
Qed.

(** After a run, the register seen from a class is well formed. *)
Lemma run_register_ok prog cls :
  exists owner outer,
    getattr _register (run prog initial_state) cls = Some (owner, outer)
    /\ register_ok owner outer.
Proof.
  destruct (run_getattr_register prog cls) as [[owner outer] Ho].
  exists owner, outer. split; [done|].
  apply lookup_mro_owner in Ho as [_ Ho].
  destruct (run_initial_well_formed prog owner) as (Hr & _). by apply Hr.
Qed.

(** X13: after any module, [cls.subclasses] lists without repetition
    exactly the classes of the tokens that [cls.tokens] enumerates: a class
    without a token is not listed.  Every token enumerated belongs to
    [cls], and the names returned with [namesOnly] are those of the
    classes listed. *)
Theorem subclasses_are_classes_of_tokens (prog : list stmt) (cls : pyclass) :
  exists cs ts,
    Token_subclasses cls false (run prog initial_state)
    = (Return (IClass <$> cs), run prog initial_state)
    /\ Token_subclasses cls true (run prog initial_state)
       = (Return ((fun c => IName (__name__ c)) <$> cs),
          run prog initial_state)
    /\ Token_tokens cls false (run prog initial_state)
       = (Return (IToken <$> ts), run prog initial_state)
    /\ NoDup cs
    /\ (forall c, c ∈ cs <-> exists t, t ∈ ts /\ __class__ t = c)
    /\ (forall t, t ∈ ts -> Token_includes cls t = true).
Proof.
  destruct (run_register_ok prog cls) as (owner & outer & Ho & Hnd & Hok).
  exists (registered_subclasses cls outer), (registered_tokens cls outer).
  unfold Token_subclasses, Token_tokens. unfold_M. rewrite Ho.
  split; [done|]. split; [done|]. split; [done|]. split; [|split].
  - unfold registered_subclasses. by apply NoDup_filter.
  - intros c. rewrite elem_of_registered_subclasses. split.
    + intros [Hc [register Hin]%elem_of_keys].
      destruct (Hok _ _ Hin) as (_ & Hne & _ & Hreg).
      destruct register as [|[name t] register]; [done|].
      exists t. split.
      * apply elem_of_registered_tokens; [done|].
        exists c, ((name, t) :: register), name. split; [done|].
        split; [done | left].
      * apply (Hreg name t). left.
    + intros (t & (c' & register & name & Hin & Hc' & Ht)%elem_of_registered_tokens
                & Hc); [|done].
      destruct (Hok _ _ Hin) as (_ & _ & _ & Hreg).
      destruct (Hreg _ _ Ht) as [_ Hcls]. subst. split; [done|].
      apply elem_of_keys. by exists register.
  - intros t (c' & register & name & Hin & Hc' & Ht)%elem_of_registered_tokens;
      [|done].
    destruct (Hok _ _ Hin) as (_ & _ & _ & Hreg).
    destruct (Hreg _ _ Ht) as [_ Hcls].
    unfold Token_includes, isinstance. by rewrite Hcls.
Qed.

(** X14: after any module, no two tokens that [cls.tokens] enumerates have
    both the same class and the same name, and each has a name; no token
    is enumerated twice. *)
Theorem names_unique_per_class (prog : list stmt) (cls : pyclass) :
  exists ts,
    Token_tokens cls false (run prog initial_state)
    = (Return (IToken <$> ts), run prog initial_state)
    /\ NoDup ((fun t => (__class__ t, Token_str t)) <$> ts)
    /\ NoDup ts
    /\ (forall t, t ∈ ts -> is_Some (Token_str t)).
Proof.
  destruct (run_register_ok prog cls) as (owner & outer & Ho & Hnd & Hok).
  exists (registered_tokens cls outer).
  unfold Token_tokens. unfold_M. rewrite Ho. split; [done|].
  assert (forall t1 t2,
            t1 ∈ registered_tokens cls outer ->
            t2 ∈ registered_tokens cls outer ->
            (__class__ t1, Token_str t1) = (__class__ t2, Token_str t2) ->
            t1 = t2) as Hinj.
  { intros t1 t2
      (c1 & r1 & n1 & Hin1 & _ & Ht1)%elem_of_registered_tokens
      (c2 & r2 & n2 & Hin2 & _ & Ht2)%elem_of_registered_tokens [= Hc Hs];
      [|done..].
    destruct (Hok _ _ Hin1) as (_ & _ & Hnd1 & Hreg1).
    destruct (Hok _ _ Hin2) as (_ & _ & _ & Hreg2).
    destruct (Hreg1 _ _ Ht1) as [Hs1 Hc1], (Hreg2 _ _ Ht2) as [Hs2 Hc2].
    assert (c1 = c2) as -> by congruence.
    assert (n1 = n2) as -> by congruence.
    pose proof (elem_of_get _ _ _ Hnd Hin1) as Hg1.
    rewrite (elem_of_get _ _ _ Hnd Hin2) in Hg1. injection Hg1 as ->.
    pose proof (elem_of_get _ _ _ Hnd1 Ht1) as Hg1.
    rewrite (elem_of_get _ _ _ Hnd1 Ht2) in Hg1. by injection Hg1 as ->. }
  assert (NoDup (registered_tokens cls outer)) as Hts.
  { unfold registered_tokens. apply NoDup_bind.
    - intros c1 c2 t
        [_ [r1 Hin1]%elem_of_keys]%elem_of_registered_subclasses
        [_ [r2 Hin2]%elem_of_keys]%elem_of_registered_subclasses.
      rewrite (elem_of_get _ _ _ Hnd Hin1), (elem_of_get _ _ _ Hnd Hin2).
      unfold OrderedDict.items.
      intros [[n1 t1] [-> Ht1]]%list_elem_of_fmap
             [[n2 t2] [Heq Ht2]]%list_elem_of_fmap.
      simpl in Heq. subst t2.
      destruct (Hok _ _ Hin1) as (_ & _ & _ & Hreg1).
      destruct (Hok _ _ Hin2) as (_ & _ & _ & Hreg2).
      destruct (Hreg1 _ _ Ht1) as [_ Hc1], (Hreg2 _ _ Ht2) as [_ Hc2].
      congruence.
    - intros c [_ [r Hin]%elem_of_keys]%elem_of_registered_subclasses.
      rewrite (elem_of_get _ _ _ Hnd Hin). unfold OrderedDict.items.
      destruct (Hok _ _ Hin) as (_ & _ & Hndr & Hreg).
      apply NoDup_fmap_2_strong; [|by eapply NoDup_fmap_1].
      intros [n1 t1] [n2 t2] Ht1 Ht2 Heq. simpl in Heq. subst t2.
      destruct (Hreg _ _ Ht1) as [Hs1 _], (Hreg _ _ Ht2) as [Hs2 _].
      congruence.
    - unfold registered_subclasses. by apply NoDup_filter. }
  split; [by apply NoDup_fmap_2_strong|]. split; [done|].
  intros t (c & r & n & Hin & _ & Ht)%elem_of_registered_tokens; [|done].
  destruct (Hok _ _ Hin) as (_ & _ & _ & Hreg).
  destruct (Hreg _ _ Ht) as [Hs _]. by eexists.
Qed.

(** ** Registries only grow under construction *)

Section grows_facts.
Context {K V : Type} `{EqDecision K}.
Implicit Types (d : OrderedDict K V).

Lemma dict_grows_refl d : dict_grows d d.
Proof. by intros k v. Qed.

Lemma dict_grows_trans d1 d2 d3 :
  dict_grows d1 d2 -> dict_grows d2 d3 -> dict_grows d1 d3.
Proof. intros H12 H23 k v Hk. by apply H23, H12. Qed.

Lemma dict_grows_set d k v :
  OrderedDict.get d k = None -> dict_grows d (OrderedDict.set d k v).
Proof.
  intros Hk k' v' Hk'. rewrite get_set_ne; [done|]. intros ->. congruence.
Qed.
End grows_facts.

Lemma register_grows_refl outer : register_grows outer outer.
Proof. intros c register Hc. exists register. split; [done | apply dict_grows_refl]. Qed.

Lemma register_grows_trans o1 o2 o3 :
  register_grows o1 o2 -> register_grows o2 o3 -> register_grows o1 o3.
Proof.
  intros H12 H23 c r1 Hc. destruct (H12 c r1 Hc) as (r2 & Hc2 & Hg12).
  destruct (H23 c r2 Hc2) as (r3 & Hc3 & Hg23). exists r3.
  split; [done | by eapply dict_grows_trans].
Qed.

Lemma register_grows_set (outer : Register) c register' :
  (forall register,
     OrderedDict.get outer c = Some register ->
     dict_grows register register') ->
  register_grows outer (OrderedDict.set outer c register').
Proof.
  intros Hc c' register Hc'. destruct (decide (c = c')) as [<-|Hne].
  - exists register'. rewrite get_set_eq. split; [done | by apply Hc].
  - exists register. rewrite get_set_ne by done.
    split; [done | apply dict_grows_refl].
Qed.

Lemma attr_rel_refl {A} (attr : ClassAttrs -> option A) (R : A -> A -> Prop)
    st :
  (forall a, R a a) -> attr_rel attr R st st.
Proof. intros HR o. by destruct (attr (attrs st o)). Qed.

Lemma attr_rel_trans {A} (attr : ClassAttrs -> option A)
    (R : A -> A -> Prop) st1 st2 st3 :
  (forall a b c, R a b -> R b c -> R a c) ->
  attr_rel attr R st1 st2 -> attr_rel attr R st2 st3 ->
  attr_rel attr R st1 st3.
Proof.
  intros HR H12 H23 o. specialize (H12 o). specialize (H23 o).
  destruct (attr (attrs st1 o)), (attr (attrs st2 o)), (attr (attrs st3 o));
    try done. by eapply HR.
Qed.

Lemma attr_rel_update {A} (attr : ClassAttrs -> option A)
    (R : A -> A -> Prop) st o f :
  (forall a, R a a) ->
  match attr (attrs st o), attr (f (attrs st o)) with
  | Some a, Some a' => R a a'
  | None, None => True
  | _, _ => False
  end ->
  attr_rel attr R st (update_attrs st o f).
Proof.
  intros HR Hf o'. unfold update_attrs; simpl.
  destruct (decide (o' = o)) as [->|]; [done|].
  by destruct (attr (attrs st o')).
Qed.

Lemma attr_rel_lookup {A} (attr : ClassAttrs -> option A)
    (R : A -> A -> Prop) st st' l o a :
  attr_rel attr R st st' ->
  lookup_mro attr (attrs st) l = Some (o, a) ->
  exists a', lookup_mro attr (attrs st') l = Some (o, a') /\ R a a'.
Proof.
  intros HR. induction l as [|c l IH]; simpl; [done|].
  specialize (HR c).
  destruct (attr (attrs st c)) as [a0|], (attr (attrs st' c)) as [a0'|];
    try done.
  intros [= <- <-]. by exists a0'.
Qed.

Lemma attr_rel_getattr {A} (attr : ClassAttrs -> option A)
    (R : A -> A -> Prop) st st' c o a :
  attr_rel attr R st st' ->
  getattr attr st c = Some (o, a) ->
  exists a', getattr attr st' c = Some (o, a') /\ R a a'.
Proof. apply attr_rel_lookup. Qed.

#[global] Instance grows_preorder : PreOrder grows.
Proof.
  split.
  - intros st. split; [|split]; apply attr_rel_refl;
      auto using register_grows_refl, dict_grows_refl.
  - intros st1 st2 st3 (Hr & Hi & Hn) (Hr' & Hi' & Hn').
    split; [|split]; eapply attr_rel_trans; eauto;
      eauto using register_grows_trans, dict_grows_trans.
Qed.

Lemma grows_set_register st owner outer outer' :
  _register (attrs st owner) = Some outer ->
  register_grows outer outer' ->
  grows st (set_register st owner outer').
Proof.
  intros Ho Hg. split; [|split].
  - apply attr_rel_update; [apply register_grows_refl|]. simpl. by rewrite Ho.
  - apply attr_rel_update; [apply dict_grows_refl|]. simpl.
    destruct (_index (attrs st owner)); [apply dict_grows_refl | done].
  - apply attr_rel_update; [apply dict_grows_refl|]. simpl.
    destruct (_numindex (attrs st owner)); [apply dict_grows_refl | done].
Qed.

Lemma register_local_grows s name : preserves grows (register_local s name).
Proof.
  intros st r st'. unfold register_local. unfold_M.
  destruct (getattr _register st (__class__ s)) as [[owner outer]|] eqn:Ho;
    [|intros [= _ <-]; reflexivity].
  apply lookup_mro_owner in Ho as [_ Ho].
  destruct (OrderedDict.get outer (__class__ s)) as [register|] eqn:Hr; simpl.
  - destruct (OrderedDict.get register name) eqn:Hn; intros [= _ <-];
      [reflexivity|].
    apply (grows_set_register _ _ outer); [done|].
    apply register_grows_set. intros register' Hr'.
    assert (register' = register) as -> by congruence.
    by apply dict_grows_set.
  - intros [= _ <-].
    trans (set_register st owner
             (OrderedDict.set outer (__class__ s) OrderedDict.empty)).
    + apply (grows_set_register _ _ outer); [done|].
      apply register_grows_set. intros register' Hr'. congruence.
    + eapply grows_set_register.
      * unfold set_register, update_attrs; simpl. by rewrite decide_True.
      * apply register_grows_set. intros register'.
        rewrite get_set_eq. intros [= <-]. by intros k v.
Qed.

Lemma register_index_grows s name : preserves grows (register_index s name).
Proof.
  intros st r st'. unfold register_index.
  destruct (getattr _index st (__class__ s)) as [[owner index]|] eqn:Hi;
    [destruct (OrderedDict.get index name) eqn:Hn|]; intros [= _ <-];
    try reflexivity.
  apply lookup_mro_owner in Hi as [_ Hi]. split; [|split].
  - apply attr_rel_update; [apply register_grows_refl|]. simpl.
    destruct (_register (attrs st owner)); [apply register_grows_refl | done].
  - apply attr_rel_update; [apply dict_grows_refl|]. simpl. rewrite Hi.
    by apply dict_grows_set.
  - apply attr_rel_update; [apply dict_grows_refl|]. simpl.
    destruct (_numindex (attrs st owner)); [apply dict_grows_refl | done].
Qed.

Lemma register_numindex_grows s : preserves grows (register_numindex s).
Proof.
  intros st r st'. unfold register_numindex.
  destruct (getattr _numindex st (__class__ s)) as [[owner index]|] eqn:Hi;
    [destruct (OrderedDict.get index (Token_int s)) eqn:Hn|];
    intros [= _ <-]; try reflexivity.
  apply lookup_mro_owner in Hi as [_ Hi]. split; [|split].
  - apply attr_rel_update; [apply register_grows_refl|]. simpl.
    destruct (_register (attrs st owner)); [apply register_grows_refl | done].
  - apply attr_rel_update; [apply dict_grows_refl|]. simpl.
    destruct (_index (attrs st owner)); [apply dict_grows_refl | done].
  - apply attr_rel_update; [apply dict_grows_refl|]. simpl. rewrite Hi.
    by apply dict_grows_set.
Qed.

Lemma Token_init_grows cls sv iv fv dv lv val :
  preserves grows (Token_init cls sv iv fv dv lv val).
Proof.
  unfold Token_init. apply preserves_bind; [tc_solve| |].
  { intros st r st' Hv.
    pose proof (resolve_val_attrs _ _ _ _ _ _ _ _ _ Hv) as Hattrs.
    split; [|split]; intros o; rewrite Hattrs;
      match goal with |- context [?a (attrs st o)] =>
        destruct (a (attrs st o)) end;
      auto using register_grows_refl, dict_grows_refl. }
  intros v. destruct (Token_str _) as [name|];
    [|apply preserves_raise; tc_solve].
  apply preserves_bind; [tc_solve | apply register_local_grows | intros _].
  apply preserves_bind; [tc_solve | apply register_index_grows | intros _].
  apply preserves_bind; [tc_solve | apply register_numindex_grows | intros _].
  apply preserves_ret; tc_solve.
Qed.

(** X15: a construction, whatever its outcome, never removes or replaces a
    registered token.  After any module, a token that [c.byval] or
    [c.bynum] returned for a key is still returned for it after one more
    construction, and every token that [c.tokens] enumerated is still
    enumerated. *)
Theorem construction_never_unregisters
    (prog : list stmt) d sv iv fv dv lv val (c : pyclass) :
  let st := run prog initial_state in
  let st' := (Token_init d sv iv fv dv lv val st).2 in
  (forall key b t,
     (Token_byval c key b st).1 = Return (Some t) ->
     (Token_byval c key b st').1 = Return (Some t))
  /\ (forall key b t,
        (Token_bynum c key b st).1 = Return (Some t) ->
        (Token_bynum c key b st').1 = Return (Some t))
  /\ exists ts ts',
       (Token_tokens c false st).1 = Return (IToken <$> ts)
       /\ (Token_tokens c false st').1 = Return (IToken <$> ts')
       /\ forall t, t ∈ ts -> t ∈ ts'.
Proof.
  intros st st'.
  assert (well_formed st) as Hwf by apply run_initial_well_formed.
  assert (well_formed st') as Hwf'
    by apply (exec_well_formed (Construct d sv iv fv dv lv val) st Hwf).
  assert (grows st st') as (Hr & Hi & Hn).
  { subst st'. destruct (Token_init d sv iv fv dv lv val st) as [r s'] eqn:E.
    by apply (Token_init_grows _ _ _ _ _ _ _ _ _ _ E). }
  split; [|split].
  - intros key b t. unfold Token_byval. unfold_M.
    destruct (getattr _index st c) as [[owner index]|] eqn:Hget; [|done].
    destruct (attr_rel_getattr _ _ _ _ _ _ _ Hi Hget) as (index' & -> & Hg).
    simpl. destruct (OrderedDict.get index key) as [t'|] eqn:Hk;
      [|by destruct b].
    intros [= ->]. by rewrite (Hg _ _ Hk).
  - intros key b t. unfold Token_bynum. unfold_M.
    destruct (getattr _numindex st c) as [[owner index]|] eqn:Hget; [|done].
    destruct (attr_rel_getattr _ _ _ _ _ _ _ Hn Hget) as (index' & -> & Hg).
    simpl. destruct (OrderedDict.get index key) as [t'|] eqn:Hk;
      [|by destruct b].
    intros [= ->]. by rewrite (Hg _ _ Hk).
  - destruct (run_getattr_register prog c) as [[owner outer] Ho].
    fold st in Ho.
    destruct (attr_rel_getattr _ _ _ _ _ _ _ Hr Ho) as (outer' & Ho' & Hg).
    pose proof Ho as [_ Hown]%lookup_mro_owner.
    pose proof Ho' as [_ Hown']%lookup_mro_owner.
    destruct (Hwf owner) as (Hok & _). destruct (Hok _ Hown) as [Hnd Hregs].
    destruct (Hwf' owner) as (Hok' & _). destruct (Hok' _ Hown') as [Hnd' _].
    exists (registered_tokens c outer), (registered_tokens c outer').
    unfold Token_tokens. unfold_M.
    rewrite Ho, Ho'. split; [done|]. split; [done|].
    intros t (c' & reg & name & Hin & Hc' & Ht)%elem_of_registered_tokens;
      [|done].
    destruct (Hregs _ _ Hin) as (_ & _ & Hndr & _).
    destruct (Hg c' reg (elem_of_get _ _ _ Hnd Hin)) as (reg' & Hget' & Hg').
    apply elem_of_registered_tokens; [done|]. exists c', reg', name.
    split; [by apply get_Some_elem_of|]. split; [done|].
    apply get_Some_elem_of, Hg'. by apply elem_of_get.
Qed.

Lemma construction_never_unregisters_witness :
  (Token_byval Comparison "EQ" false
     (Token_init Existence (Some "EQ") None VNone VNone VNone None
        comparison_state).2).1
  = Return (Some first_EQ).
Proof.
  destruct (construction_never_unregisters comparison_module Existence
              (Some "EQ") None VNone VNone VNone None Comparison)
    as (Hs & _).
  apply (Hs "EQ" false first_EQ). vm_compute. reflexivity.
Defined.
